(** * Scaffolder: template cache, token substitution and mount dispatch

    A shallow embedding of
    [cli/plasmo/src/features/manifest-factory/scaffolder.ts].

    - A JavaScript string is modelled by the [string] of the bytes of its
      UTF-8 encoding; [readFile(path, "utf8")] decodes, so what it hands
      on is the stored bytes with every ill-formed sequence replaced by
      U+FFFD.  The built-in [String.prototype.replaceAll] is embedded with
      its substitution patterns; the tokens the class replaces are
      non-empty ASCII literals, for which matching on bytes and matching
      on UTF-16 code units agree.
    - The file system is a finite map from paths to nodes.  A file can be
      written only into a directory that exists, and [ensureDir] makes the
      missing directories above a path as well.
    - An [async] method is a tree of the file-system calls it awaits.
      [Promise.all] starts all its promises and lets their calls take
      effect in any order: a run is driven by a schedule, and what is
      proved of a method is proved for every schedule.
    - The private field [#scaffoldCache] is a finite map kept in the state.
    - Node's [path] functions, the directory structure of paths, the helper
      [toPosix], the predicate [isSupportedUiExt] and fs-extra's [copy] are
      not part of the file; they are the fields of a [Host] record the
      whole development is parameterised by. *)

From Stdlib Require Import Ascii String NArith Lia.
From stdpp Require Import base option list strings gmap relations.

Local Open Scope char_scope.
Local Open Scope stdpp_scope.

(** ** Strings *)

Module Str.

(** [drop n s] is [s.substring(n)]. *)
Fixpoint drop (n : nat) (s : string) : string :=
  match n, s with
  | O, _ => s
  | S n, String _ r => drop n r
  | S _, "" => ""
  end.

(** [includes tok s] is [s.includes(tok)]: [tok] starts at some position
    of [s]. *)
Fixpoint includes (tok s : string) : bool :=
  String.prefix tok s ||
  match s with
  | "" => false
  | String _ r => includes tok r
  end.

(** Number of positions of [s] at which [tok] starts. *)
Fixpoint occurrences (tok s : string) : nat :=
  (if String.prefix tok s then 1 else 0) +
  match s with
  | "" => 0
  | String _ r => occurrences tok r
  end.

(** No ["$"] in the string: nothing for [GetSubstitution] to expand. *)
Fixpoint dollar_free (s : string) : bool :=
  match s with
  | "" => true
  | String c r => negb (Ascii.eqb c "$") && dollar_free r
  end.

End Str.

(** ** The JavaScript built-ins used by [#generate] *)

Module JS.

(** The abstract operation GetSubstitution of ECMA-262, for a string
    pattern: there are no captures, so of the [$]-patterns only [$$],
    [$&], [$`] and [$'] are expanded; [$n] and [$<] stay as they are. *)
Fixpoint GetSubstitution (matched before after template : string) : string :=
  match template with
  | "" => ""
  | String c r =>
      let literal := String c (GetSubstitution matched before after r) in
      if Ascii.eqb c "$" then
        match r with
        | "" => literal
        | String d r' =>
            let rest := GetSubstitution matched before after r' in
            if Ascii.eqb d "$" then String "$" rest
            else if Ascii.eqb d "&" then matched +:+ rest
            else if Ascii.eqb d "`" then before +:+ rest
            else if Ascii.eqb d "'" then after +:+ rest
            else literal
        end
      else literal
  end.

(** One left-to-right pass over [rest], the not yet visited part of the
    receiver; [before] is the part already visited and [skip] the number
    of characters of the current match still to step over.  A match is
    looked for at every position that is not inside the previous match
    (ECMA-262 advances by [max 1 (length searchValue)]); the empty
    [searchValue] matches at every position, the end included. *)
Fixpoint replaceAll_scan (searchValue replaceValue : string)
    (skip : nat) (before rest : string) : string :=
  match rest with
  | "" =>
      if String.prefix searchValue ""
      then GetSubstitution searchValue before "" replaceValue
      else ""
  | String c rest' =>
      let before' := before +:+ String c "" in
      match skip with
      | S k => replaceAll_scan searchValue replaceValue k before' rest'
      | O =>
          if String.prefix searchValue rest then
            GetSubstitution searchValue before
              (Str.drop (String.length searchValue) rest) replaceValue +:+
            match String.length searchValue with
            | O => String c (replaceAll_scan searchValue replaceValue 0 before' rest')
            | S k => replaceAll_scan searchValue replaceValue k before' rest'
            end
          else String c (replaceAll_scan searchValue replaceValue 0 before' rest')
      end
  end.

(** [s.replaceAll(searchValue, replaceValue)] with two strings. *)
Definition replaceAll (s searchValue replaceValue : string) : string :=
  replaceAll_scan searchValue replaceValue 0 "" s.

End JS.

(** ** Decoding a file as UTF-8 *)

Module Utf8.

(** U+FFFD, the replacement character, in UTF-8. *)
Definition replacement : string :=
  String "239" (String "191" (String "189" "")).

(** What a byte is at the start of a character: a character of its own,
    the first of [more + 1] bytes whose second lies between [lower] and
    [upper], or no start at all. *)
Inductive Lead :=
| One
| Start (more : nat) (lower upper : N)
| Bad.

Definition lead (b : N) : Lead :=
  if (b <=? 127)%N then One
  else if (194 <=? b)%N && (b <=? 223)%N then Start 1 128 191
  else if (b =? 224)%N then Start 2 160 191
  else if (b =? 237)%N then Start 2 128 159
  else if (225 <=? b)%N && (b <=? 239)%N then Start 2 128 191
  else if (b =? 240)%N then Start 3 144 191
  else if (b =? 244)%N then Start 3 128 143
  else if (241 <=? b)%N && (b <=? 243)%N then Start 3 128 191
  else Bad.

(** The decoder of the Encoding Standard, with the text kept in UTF-8:
    [seen] holds the bytes of the character under way, [more] the number
    of bytes it still needs and [lower], [upper] the bounds of the next
    one.  A byte that cannot continue the character ends it with one
    U+FFFD and is looked at again as a first byte; so does the end of the
    input. *)
Fixpoint decode_scan (seen : string) (more : nat) (lower upper : N)
    (bytes : string) : string :=
  match bytes with
  | "" =>
      match more with
      | O => ""
      | S _ => replacement
      end
  | String c rest =>
      let b := N_of_ascii c in
      let first :=
        match lead b with
        | One => String c (decode_scan "" 0 128 191 rest)
        | Start n lo hi => decode_scan (String c "") n lo hi rest
        | Bad => replacement +:+ decode_scan "" 0 128 191 rest
        end in
      match more with
      | O => first
      | S k =>
          if (lower <=? b)%N && (b <=? upper)%N then
            match k with
            | O => seen +:+ String c (decode_scan "" 0 128 191 rest)
            | S _ => decode_scan (seen +:+ String c "") k 128 191 rest
            end
          else replacement +:+ first
      end
  end.

(** [buffer.toString("utf8")] *)
Definition decode (bytes : string) : string := decode_scan "" 0 128 191 bytes.

(** Only bytes below 128. *)
Fixpoint is_ascii (s : string) : bool :=
  match s with
  | "" => true
  | String c r => (N_of_ascii c <=? 127)%N && is_ascii r
  end.

End Utf8.

(** ** The file system, the trace and the state *)

(** What a path holds; the content of a file is its bytes. *)
Inductive Node :=
| File (content : string)
| Dir.

(** The file-system calls that were carried out, in the order in which
    they took effect. *)
Inductive Event :=
| EvRead (path : string)
| EvWrite (path content : string)
| EvMkdir (path : string)
| EvCopy (src dest : string).

(** A rejected promise. *)
Inductive Error :=
| ENOENT (path : string)
| EISDIR (path : string)
| ENOTDIR (path : string)
| EEXIST (path : string)
| ECOPY (src dest : string)
| TypeError.

(** The scaffolder's private cache together with the world it acts on. *)
Record State := mkState {
  scaffoldCache : gmap string string;
  nodes : gmap string Node;
  trace : list Event
}.

(** How a file-system call ends: with a value and the new state, or with an
    error. *)
Inductive Res (A : Type) :=
| Ok (a : A) (s : State)
| Err (e : Error).
Arguments Ok {A} a s.
Arguments Err {A} e.

(** What Node, the operating system and the rest of the repository
    provide. *)
Record Host := {
  (** [path.resolve], [path.join], [path.relative] *)
  resolve : string → string → string;
  join : string → string → string;
  relative : string → string → string;
  (** [toPosix] of [~features/helpers/path] *)
  toPosix : string → string;
  (** [isSupportedUiExt] of [./ui-library] *)
  isSupportedUiExt : string → bool;
  (** the directories a path lies in, the outermost first *)
  ancestors : string → list string;
  (** the effect of fs-extra's [copy] on the file system, [None] when it
      rejects *)
  copy_tree : string → string → gmap string Node → option (gmap string Node)
}.

(** The writes of a trace, oldest first. *)
Definition writes_of (t : list Event) : list (string * string) :=
  omap (λ e, match e with EvWrite p c => Some (p, c) | _ => None end) t.

(** The paths read by a trace, oldest first. *)
Definition reads_of (t : list Event) : list string :=
  omap (λ e, match e with EvRead p => Some p | _ => None end) t.

(** The copies of a trace, oldest first. *)
Definition copies_of (t : list Event) : list (string * string) :=
  omap (λ e, match e with EvCopy a b => Some (a, b) | _ => None end) t.

(** ** The effect of a file-system call *)

Module Disk.

Definition log (e : Event) (s : State) : State :=
  mkState (scaffoldCache s) (nodes s) (trace s ++ [e]).

Definition set_nodes (n : gmap string Node) (s : State) : State :=
  mkState (scaffoldCache s) n (trace s).

Definition is_dir (n : gmap string Node) (path : string) : bool :=
  match n !! path with
  | Some Dir => true
  | _ => false
  end.

Definition is_file (n : gmap string Node) (path : string) : bool :=
  match n !! path with
  | Some (File _) => true
  | _ => false
  end.

(** The error of a call that goes through directories [dirs] of which one
    is not there: it is a file, or it is missing. *)
Definition no_entry (n : gmap string Node) (dirs : list string) (path : string) : Error :=
  if existsb (is_file n) dirs then ENOTDIR path else ENOENT path.

(** All of [paths] made directories. *)
Definition with_dirs (paths : list string) (n : gmap string Node) : gmap string Node :=
  foldl (λ n p, <[p := Dir]> n) n paths.

Section Disk.
Context (host : Host).

(** [readFile(path, "utf8")]: the decoded content of the file. *)
Definition readFile (path : string) (s : State) : Res string :=
  match nodes s !! path with
  | Some (File content) => Ok (Utf8.decode content) (log (EvRead path) s)
  | Some Dir => Err (EISDIR path)
  | None => Err (no_entry (nodes s) (ancestors host path) path)
  end.

(** [writeFile(path, data)]: creates the file or replaces its content; the
    directories above it must be there. *)
Definition writeFile (path data : string) (s : State) : Res () :=
  if forallb (is_dir (nodes s)) (ancestors host path) then
    match nodes s !! path with
    | Some Dir => Err (EISDIR path)
    | _ => Ok () (log (EvWrite path data) (set_nodes (<[path := File data]> (nodes s)) s))
    end
  else Err (no_entry (nodes s) (ancestors host path) path).

(** The directories [ensureDir(path)] sees to: those above [path], the
    outermost first, and [path]. *)
Definition chain (path : string) : list string := ancestors host path ++ [path].

(** fs-extra's [ensureDir]: a recursive [mkdir]; it makes every directory
    of the chain that is missing and is rejected when one of them is a
    file. *)
Definition ensureDir (path : string) (s : State) : Res () :=
  if existsb (is_file (nodes s)) (chain path) then
    Err (if is_file (nodes s) path then EEXIST path else ENOTDIR path)
  else Ok () (log (EvMkdir path) (set_nodes (with_dirs (chain path) (nodes s)) s)).

(** fs-extra's [copy] *)
Definition copy (src dest : string) (s : State) : Res () :=
  match copy_tree host src dest (nodes s) with
  | Some n => Ok () (log (EvCopy src dest) (set_nodes n s))
  | None => Err (ECOPY src dest)
  end.

End Disk.
End Disk.

(** ** Asynchronous methods *)

(** A call of [fs/promises] or fs-extra that is awaited, with the type of
    what its promise is fulfilled with. *)
Inductive Request : Type → Type :=
| ReadFile (path : string) : Request string
| WriteFile (path data : string) : Request ()
| EnsureDir (path : string) : Request ()
| Copy (src dest : string) : Request ().

(** The effect of a call at the moment it is carried out. *)
Definition perform (host : Host) {B} (r : Request B) : State → Res B :=
  match r with
  | ReadFile path => Disk.readFile host path
  | WriteFile path data => Disk.writeFile host path data
  | EnsureDir path => Disk.ensureDir host path
  | Copy src dest => Disk.copy host src dest
  end.

(** An [async] method, or what is left of it.
    - [Look k]: synchronous code that looks at the cache or the disk
      ([existsSync]) as they are now;
    - [SetCache fileName content p]: [this.#scaffoldCache[fileName] = content];
    - [Await r k]: the call [r] has been issued and is awaited; it has not
      taken effect yet;
    - [Resume p]: the awaited call has taken effect; [p], the rest of the
      method, has not run yet;
    - [Par l r k]: [await Promise.all([l, r])], both started. *)
Inductive Proc (A : Type) : Type :=
| Ret (a : A)
| Throw (e : Error)
| Look (k : State → Proc A)
| SetCache (fileName content : string) (p : Proc A)
| Await {B} (r : Request B) (k : B → Proc A)
| Resume (p : Proc A)
| Par {B C} (l : Proc B) (r : Proc C) (k : B → C → Proc A).
Arguments Ret {A} a.
Arguments Throw {A} e.
Arguments Look {A} k.
Arguments SetCache {A} fileName content p.
Arguments Await {A B} r k.
Arguments Resume {A} p.
Arguments Par {A B C} l r k.

Fixpoint Proc_bind {A B} (f : A → Proc B) (p : Proc A) : Proc B :=
  match p with
  | Ret a => f a
  | Throw e => Throw e
  | Look k => Look (λ s, Proc_bind f (k s))
  | SetCache fileName content p => SetCache fileName content (Proc_bind f p)
  | Await r k => Await r (λ b, Proc_bind f (k b))
  | Resume p => Resume (Proc_bind f p)
  | Par l r k => Par l r (λ b c, Proc_bind f (k b c))
  end.

#[global] Instance Proc_ret : MRet Proc := λ A a, Ret a.
#[global] Instance Proc_mbind : MBind Proc := λ A B f p, Proc_bind f p.

(** [Promise.all] of a two-element array whose promises differ in type. *)
Definition Promise_all2 {A B} (t1 : Proc A) (t2 : Proc B) : Proc (A * B) :=
  Par t1 t2 (λ a b, Ret (a, b)).

(** [Promise.all]: the promises are all started, in the order of the
    array; the result lists their values in that order, and the first
    rejection rejects the whole. *)
Fixpoint Promise_all {A} (tasks : list (Proc A)) : Proc (list A) :=
  match tasks with
  | [] => Ret []
  | t :: ts => Par t (Promise_all ts) (λ a r, Ret (a :: r))
  end.

Definition set_cache (fileName content : string) (s : State) : State :=
  mkState (<[fileName := content]> (scaffoldCache s)) (nodes s) (trace s).

(** [settle p s]: [p] runs as far as it can without waiting, that is up to
    the calls it awaits.  Both promises of a [Promise.all] are started,
    the left one first; when both are fulfilled the method goes on at
    once, and when one is rejected the whole is (what the other one still
    does to the disk is not followed). *)
Fixpoint settle {A} (p : Proc A) (s : State) {struct p} : Proc A * State :=
  match p with
  | Ret a => (Ret a, s)
  | Throw e => (Throw e, s)
  | Look k => settle (k s) s
  | SetCache fileName content p => settle p (set_cache fileName content s)
  | Await r k => (Await r k, s)
  | Resume p => (Resume p, s)
  | Par l r k =>
      let '(l', s1) := settle l s in
      let '(r', s2) := settle r s1 in
      match l', r' with
      | Throw e, _ => (Throw e, s2)
      | Ret b, Throw e => (Throw e, s2)
      | Ret b, Ret c => settle (k b c) s2
      | _, Throw e => (Throw e, s2)
      | _, _ => (Par l' r' k, s2)
      end
  end.

(** What becomes of [Promise.all([l, r])] once one of the two has moved. *)
Definition gather {A B C} (l : Proc B) (r : Proc C) (k : B → C → Proc A)
    (s : State) : Proc A * State :=
  match l, r with
  | Throw e, _ => (Throw e, s)
  | Ret b, Throw e => (Throw e, s)
  | Ret b, Ret c => settle (k b c) s
  | _, Throw e => (Throw e, s)
  | _, _ => (Par l r k, s)
  end.

(** The number of things that can happen next: a call taking effect, or a
    method going on after its call. *)
Fixpoint count {A} (p : Proc A) : nat :=
  match p with
  | Await _ _ => 1
  | Resume _ => 1
  | Par l r _ => count l + count r
  | _ => 0
  end.

Section Run.
Context (host : Host).

(** [act n p s]: the [n]-th of them, counted from the left, happens. *)
Fixpoint act {A} (n : nat) (p : Proc A) (s : State) {struct p} : Proc A * State :=
  match p with
  | Await r k =>
      match perform host r s with
      | Ok b s' => (Resume (k b), s')
      | Err e => (Resume (Throw e), s)
      end
  | Resume p => settle p s
  | Par l r k =>
      if (n <? count l)%nat then
        let '(l', s') := act n l s in gather l' r k s'
      else
        let '(r', s') := act (n - count l) r s in gather l r' k s'
  | _ => (p, s)
  end.

(** A schedule says, turn after turn, which one happens; a number that
    names none lets the turn pass. *)
Definition turn {A} (n : nat) (p : Proc A) (s : State) : Proc A * State :=
  if (n <? count p)%nat then act n p s else (p, s).

Fixpoint turns {A} (schedule : list nat) (p : Proc A) (s : State) : Proc A * State :=
  match schedule with
  | [] => (p, s)
  | n :: schedule => let '(p', s') := turn n p s in turns schedule p' s'
  end.

(** The call [p] made in state [s], under a schedule. *)
Definition run {A} (schedule : list nat) (p : Proc A) (s : State) : Proc A * State :=
  let '(p', s') := settle p s in turns schedule p' s'.

(** The promise of the call [p] made in [s] is fulfilled with [a], in
    state [s'], under some schedule. *)
Definition fulfils {A} (p : Proc A) (s : State) (a : A) (s' : State) : Prop :=
  ∃ schedule, run schedule p s = (Ret a, s').

(** It is rejected under some schedule. *)
Definition rejects {A} (p : Proc A) (s : State) : Prop :=
  ∃ schedule e s', run schedule p s = (Throw e, s').

End Run.

(** A method that awaits one call at a time. *)
Fixpoint par_free {A} (p : Proc A) : Prop :=
  match p with
  | Ret _ => True
  | Throw _ => True
  | Look k => ∀ s, par_free (k s)
  | SetCache _ _ p => par_free p
  | Await _ k => ∀ b, par_free (k b)
  | Resume p => par_free p
  | Par _ _ _ => False
  end.

(** ** Reasoning about every schedule *)

Section Logic.
Context (host : Host) (T : State → State → Prop).

(** An assertion that no turn allowed by [T] makes false. *)
Definition stable (P : State → Prop) : Prop := ∀ s s', P s → T s s' → P s'.

(** [wp p Q s]: when [p] runs from [s], among other methods whose turns
    all stay within [T], then every turn of [p] stays within [T], and if
    [p] is fulfilled with [a] then [Q a] holds at that moment.  What is
    known between two turns of [p] must be stable.  The second promise of
    a [Promise.all] starts when the first has run up to its first call:
    the cache may have changed by then, the disk has not. *)
Fixpoint wp {A} (p : Proc A) (Q : A → State → Prop) (s : State) {struct p} : Prop :=
  match p with
  | Ret a => Q a s
  | Throw _ => True
  | Look k => wp (k s) Q s
  | SetCache fileName content p =>
      T s (set_cache fileName content s) ∧ wp p Q (set_cache fileName content s)
  | Await r k =>
      ∃ I, I s ∧ stable I ∧
        ∀ s1 b s2, I s1 → perform host r s1 = Ok b s2 →
          T s1 s2 ∧ ∃ I', I' s2 ∧ stable I' ∧ ∀ s3, I' s3 → wp (k b) Q s3
  | Resume p =>
      ∃ I, I s ∧ stable I ∧ ∀ s', I s' → wp p Q s'
  | Par l r k =>
      ∃ I Ql Qr,
        I s ∧ stable I ∧
        wp l Ql s ∧
        (∀ s', nodes s' = nodes s → trace s' = trace s → I s' → wp r Qr s') ∧
        (∀ b, stable (Ql b)) ∧ (∀ c, stable (Qr c)) ∧
        ∀ b c s', Ql b s' → Qr c s' → wp (k b c) Q s'
  end.

(** The same for a method that waits: [p] is what [settle] or [act] left. *)
Fixpoint waits {A} (p : Proc A) (Q : A → State → Prop) (s : State) {struct p} : Prop :=
  match p with
  | Ret a => Q a s
  | Throw _ => True
  | Look _ => False
  | SetCache _ _ _ => False
  | Await r k => wp (Await r k) Q s
  | Resume p => wp (Resume p) Q s
  | Par l r k =>
      ∃ Ql Qr,
        waits l Ql s ∧ waits r Qr s ∧
        (∀ b, stable (Ql b)) ∧ (∀ c, stable (Qr c)) ∧
        ∀ b c s', Ql b s' → Qr c s' → wp (k b c) Q s'
  end.

End Logic.

(** The outcome of a method that awaits one call at a time: its calls
    take effect in the order of the text. *)
Fixpoint lands (host : Host) {A} (p : Proc A) (s : State) (a : A) (s' : State)
    {struct p} : Prop :=
  match p with
  | Ret a' => a' = a ∧ s = s'
  | Throw _ => False
  | Look k => lands host (k s) s a s'
  | SetCache fileName content p => lands host p (set_cache fileName content s) a s'
  | Await r k => ∃ b s1, perform host r s = Ok b s1 ∧ lands host (k b) s1 a s'
  | Resume p => lands host p s a s'
  | Par _ _ _ => False
  end.

(** [Promise.all(xs.map(f))], written without the list of promises. *)
Fixpoint Promise_all_of {X A} (f : X → Proc A) (xs : list X) : Proc (list A) :=
  match xs with
  | [] => Ret []
  | x :: xs => Par (f x) (Promise_all_of f xs) (λ a r, Ret (a :: r))
  end.

(** ** The project manifest *)

(** [type ExtensionUIPage = "popup" | "options" | "devtools" | "newtab"] *)
Inductive ExtensionUIPage := popup | options | devtools | newtab.

Definition pageName (p : ExtensionUIPage) : string :=
  match p with
  | popup => "popup"
  | options => "options"
  | devtools => "devtools"
  | newtab => "newtab"
  end.

Module BaseFactory.

Record ProjectPath := {
  popupIndexList : list string;
  popupHtmlList : list string;
  optionsIndexList : list string;
  optionsHtmlList : list string;
  devtoolsIndexList : list string;
  devtoolsHtmlList : list string;
  newtabIndexList : list string;
  newtabHtmlList : list string
}.

Record CommonPath := {
  staticDirectory : string;
  dotPlasmoDirectory : string
}.

Record TemplatePath := {
  staticTemplatePath : string
}.

Record t := {
  projectPath : ProjectPath;
  commonPath : CommonPath;
  mountExt : string;
  name : string;
  templatePath : TemplatePath;
  staticScaffoldPath : string
}.

(** [projectPath[`${uiPageName}IndexList`]] *)
Definition IndexList (pp : ProjectPath) (uiPageName : ExtensionUIPage) : list string :=
  match uiPageName with
  | popup => popupIndexList pp
  | options => optionsIndexList pp
  | devtools => devtoolsIndexList pp
  | newtab => newtabIndexList pp
  end.

(** [projectPath[`${uiPageName}HtmlList`]] *)
Definition HtmlList (pp : ProjectPath) (uiPageName : ExtensionUIPage) : list string :=
  match uiPageName with
  | popup => popupHtmlList pp
  | options => optionsHtmlList pp
  | devtools => devtoolsHtmlList pp
  | newtab => newtabHtmlList pp
  end.

End BaseFactory.

(** Node's [ParsedPath]. *)
Module ParsedPath.
Record t := {
  root : string;
  dir : string;
  base : string;
  ext : string;
  name : string
}.
End ParsedPath.

(** ** The class [Scaffolder] *)

(** A value of type [string | false]. *)
Inductive HtmlFile :=
| HtmlPath (path : string)
| HtmlFalse.

(** The double quote, as a one-character string. *)
Definition quot : string := String "034" EmptyString.

(** The calls of [fs], [fs/promises] and fs-extra as the methods make
    them. *)
Module fs.

(** [existsSync]: true for whatever is at the path, file or directory. *)
Definition existsSync (s : State) (path : string) : bool :=
  match nodes s !! path with
  | Some _ => true
  | None => false
  end.

Definition readFile (path : string) : Proc string := Await (ReadFile path) Ret.
Definition writeFile (path data : string) : Proc () := Await (WriteFile path data) Ret.
Definition ensureDir (path : string) : Proc () := Await (EnsureDir path) Ret.
Definition copy (src dest : string) : Proc () := Await (Copy src dest) Ret.

End fs.

Module Scaffolder.
Section Scaffolder.

Context (host : Host) (plasmoManifest : BaseFactory.t).

Definition projectPath := BaseFactory.projectPath plasmoManifest.
Definition commonPath := BaseFactory.commonPath plasmoManifest.
Definition mountExt := BaseFactory.mountExt plasmoManifest.

Definition get_scaffoldCache : Proc (gmap string string) :=
  Look (λ s, Ret (scaffoldCache s)).

(** [this.#scaffoldCache[fileName] = content].  The keys used by the
    class all start with [index] or [content-script-ui-mount], so a lookup
    never finds an inherited property of the object. *)
Definition set_scaffoldCache (fileName content : string) : Proc () :=
  SetCache fileName content (Ret ()).

Definition throw {A} (e : Error) : Proc A := Throw e.

(** [!this.#scaffoldCache[fileName]]: a missing entry and the empty
    string are both falsy. *)
Definition falsy (entry : option string) : bool :=
  match entry with
  | Some (String _ _) => false
  | Some EmptyString => true
  | None => true
  end.

(** The [reduce] over [Object.entries(replaceMap)]; a replace map is kept
    as the list of its entries in property order. *)
Definition finalScaffold (templateContent : string)
    (replaceMap : list (string * string)) : string :=
  fold_left (λ html '(key, value), JS.replaceAll html key value)
    replaceMap templateContent.

Definition generate (templateContent outputFilePath : string)
    (replaceMap : list (string * string)) : Proc () :=
  fs.writeFile outputFilePath (finalScaffold templateContent replaceMap).

Definition copyGenerate (filePath outputFilePath : string)
    (replaceMap : list (string * string)) : Proc () :=
  templateContent ← fs.readFile filePath;
  generate templateContent outputFilePath replaceMap.

Definition cachedGenerate (fileName outputFilePath : string)
    (replaceMap : list (string * string)) : Proc () :=
  cache ← get_scaffoldCache;
  (if falsy (cache !! fileName) then
     content ← fs.readFile
       (resolve host (BaseFactory.staticScaffoldPath plasmoManifest) fileName);
     set_scaffoldCache fileName content
   else mret ());;
  cache ← get_scaffoldCache;
  match cache !! fileName with
  | Some templateContent => generate templateContent outputFilePath replaceMap
  | None => throw TypeError
  end.

Definition mirrorGenerate (fileName staticModulePath : string)
    (replaceMap : list (string * string)) : Proc () :=
  cachedGenerate fileName (resolve host staticModulePath fileName) replaceMap.

(** The text put in place of the closing-body marker. *)
Definition bodyInjection (scriptMountPath : string) : string :=
  "<div id=" +:+ quot +:+ "root" +:+ quot +:+ "></div><script src=" +:+ quot
  +:+ scriptMountPath +:+ quot +:+ " type=" +:+ quot +:+ "module" +:+ quot
  +:+ "></script></body>".

Definition templateReplace (scriptMountPath : string) : list (string * string) :=
  [("__plasmo_static_index_title__", BaseFactory.name plasmoManifest);
   ("__plasmo_static_script__", scriptMountPath)].

(** [htmlFile] is [None] when the argument is left out or [undefined]; the
    default [""] then applies.  [outputPath] and [scriptMountPath] are
    always given in this class. *)
Definition generateHtml (outputPath scriptMountPath : string)
    (htmlFile : option HtmlFile) : Proc () :=
  match default (HtmlPath "") htmlFile with
  | HtmlPath (String c p) =>
      copyGenerate (String c p) outputPath
        (templateReplace scriptMountPath
           ++ [("</body>", bodyInjection scriptMountPath)])
  | HtmlPath EmptyString | HtmlFalse =>
      cachedGenerate "index.html" outputPath (templateReplace scriptMountPath)
  end.

Definition createPageHtml (uiPageName : ExtensionUIPage)
    (htmlFile : option HtmlFile) : Proc () :=
  let htmlFile := default (HtmlPath "") htmlFile in
  let outputHtmlPath :=
    resolve host (BaseFactory.dotPlasmoDirectory commonPath)
      (pageName uiPageName +:+ ".html") in
  let scriptMountPath := "./static/" +:+ pageName uiPageName +:+ mountExt in
  generateHtml outputHtmlPath scriptMountPath (Some htmlFile).

Definition copyStaticCommon : Proc () :=
  let templateCommonDirectory :=
    resolve host
      (BaseFactory.staticTemplatePath (BaseFactory.templatePath plasmoManifest))
      "common" in
  let staticCommonDirectory :=
    resolve host (BaseFactory.staticDirectory commonPath) "common" in
  fs.copy templateCommonDirectory staticCommonDirectory.

(** The two [find(existsSync)] scans of [#initUiPageTemplate]. *)
Definition findPageFiles (uiPageName : ExtensionUIPage) (s : State)
    : option string * option string :=
  let indexList := BaseFactory.IndexList projectPath uiPageName in
  let htmlList := BaseFactory.HtmlList projectPath uiPageName in
  let indexFile := List.find (fs.existsSync s) indexList in
  let htmlFile := List.find (fs.existsSync s) htmlList in
  (indexFile, htmlFile).

(** The import token of a page's mount script. *)
Definition indexImport (uiPageName : ExtensionUIPage)
    (indexFile : option string) : string :=
  match indexFile with
  | Some indexFile =>
      toPosix host (relative host (BaseFactory.staticDirectory commonPath) indexFile)
  | None => "~" +:+ pageName uiPageName
  end.

(** The part of [#initUiPageTemplate] from its first [await] on. *)
Definition initUiPageTemplate_rest (uiPageName : ExtensionUIPage)
    (files : option string * option string) : Proc bool :=
  let '(indexFile, htmlFile) := files in
  let staticDirectory := BaseFactory.staticDirectory commonPath in
  fs.ensureDir staticDirectory;;
  let hasIndex := bool_decide (indexFile ≠ None) in
  let uiPageModulePath :=
    resolve host staticDirectory (pageName uiPageName +:+ mountExt) in
  Promise_all [
    cachedGenerate ("index" +:+ mountExt) uiPageModulePath
      [("__plasmo_import_module__", indexImport uiPageName indexFile)];
    createPageHtml uiPageName (HtmlPath <$> htmlFile)
  ];;
  mret hasIndex.

(** The scans are synchronous: they see the disk as it is when the method
    is called. *)
Definition initUiPageTemplate (uiPageName : ExtensionUIPage) : Proc bool :=
  Look (λ s, initUiPageTemplate_rest uiPageName (findPageFiles uiPageName s)).

(** The first result is dropped by the destructuring
    [[_, ...uiPagesResult]]. *)
Definition init : Proc (list bool) :=
  r ← Promise_all2 copyStaticCommon
        (Promise_all [
           initUiPageTemplate popup;
           initUiPageTemplate options;
           initUiPageTemplate newtab;
           initUiPageTemplate devtools
         ]);
  mret (snd r).




End Scaffolder.
End Scaffolder.

(** ** Two hosts and a project to run the class on *)

Module Example.

Definition slash : ascii := "/".
Definition backslash : ascii := "092".

(** The segments of a path. *)
Fixpoint split_go (sep : ascii) (cur s : string) : list string :=
  match s with
  | "" => [String.rev cur]
  | String c r =>
      if Ascii.eqb c sep then String.rev cur :: split_go sep "" r
      else split_go sep (String c cur) r
  end.

Definition split (sep : ascii) (s : string) : list string := split_go sep "" s.

Fixpoint drop_common (a b : list string) : list string * list string :=
  match a, b with
  | x :: a', y :: b' => if String.eqb x y then drop_common a' b' else (a, b)
  | _, _ => (a, b)
  end.

(** [path.resolve(base, rel)] for an absolute, normalised [base] and a
    relative [rel] without [.] and [..] segments. *)
Definition resolve2 (sep : ascii) (base rel : string) : string :=
  match rel with
  | "" => base
  | _ => base +:+ String sep rel
  end.

(** [path.join(a, b)] for normalised relative paths. *)
Definition join2 (sep : ascii) (a b : string) : string :=
  match a, b with
  | "", "" => "."
  | "", _ => b
  | _, "" => a
  | _, _ => a +:+ String sep b
  end.

(** [path.relative(from, to)] for absolute, normalised paths. *)
Definition relative2 (sep : ascii) (from to : string) : string :=
  let '(up, down) := drop_common (split sep from) (split sep to) in
  String.concat (String sep "") (((λ _, "..") <$> up) ++ down).

(** Modelled from the spec: [toPosix] of [~features/helpers/path], which is
    not among the sources; the spec has the path "normalized to
    forward-slash form". *)
Fixpoint toPosix_impl (path : string) : string :=
  match path with
  | "" => ""
  | String c r => String (if Ascii.eqb c backslash then slash else c) (toPosix_impl r)
  end.

(** Modelled from the spec: [isSupportedUiExt] of [./ui-library], which is
    not among the sources; the spec leaves open which extensions are
    "recognized UI-framework" extensions, and this list is an example. *)
Definition isSupportedUiExt_impl (ext : string) : bool :=
  bool_decide (ext ∈ [".tsx"; ".svelte"; ".vue"]).

(** The directories an absolute, normalised path lies in: what stands
    before each of its separators; before the first one stands the root,
    which keeps its separator. *)
Fixpoint ancestors_go (sep : ascii) (first : bool) (seen s : string) : list string :=
  match s with
  | "" => []
  | String c r =>
      if Ascii.eqb c sep then
        match r with
        | "" => []
        | _ =>
            (if first then seen +:+ String sep "" else seen)
            :: ancestors_go sep false (seen +:+ String c "") r
        end
      else ancestors_go sep first (seen +:+ String c "") r
  end.

Definition ancestors_impl (sep : ascii) (path : string) : list string :=
  ancestors_go sep true "" path.

(** [p] is [src] or lies below it. *)
Definition below (sep : ascii) (src p : string) : bool :=
  String.eqb p src || String.prefix (src +:+ String sep "") p.

(** The same place below [dest]. *)
Definition moved (src dest p : string) : string :=
  dest +:+ Str.drop (String.length src) p.

(** What a copy of the tree at [src] puts where: every node at [src] or
    below it, at the same place below [dest]. *)
Definition copy_plan (sep : ascii) (src dest : string) (n : gmap string Node)
    : list (string * Node) :=
  omap (λ u, if below sep src u.1 then Some (moved src dest u.1, u.2) else None)
       (map_to_list n).

(** A file cannot be put where a directory is, nor a directory where a
    file is. *)
Definition fits (n : gmap string Node) (u : string * Node) : bool :=
  match u.2, n !! u.1 with
  | File _, Some Dir => false
  | Dir, Some (File _) => false
  | _, _ => true
  end.

(** fs-extra's [copy] of a tree: it makes the directories above [dest] and
    puts the tree there, over what is there.  It rejects when [src] does
    not exist, when a file is in the way of a directory, or a directory in
    the way of a file. *)
Definition copy_tree_impl (sep : ascii) (src dest : string)
    (n : gmap string Node) : option (gmap string Node) :=
  match n !! src with
  | None => None
  | Some _ =>
      if existsb (Disk.is_file n) (ancestors_impl sep dest) then None
      else
        let made := Disk.with_dirs (ancestors_impl sep dest) n in
        if forallb (fits made) (copy_plan sep src dest n) then
          Some (foldl (λ acc u, <[u.1 := u.2]> acc) made (copy_plan sep src dest n))
        else None
  end.

Definition posix : Host := {|
  resolve := resolve2 slash;
  join := join2 slash;
  relative := relative2 slash;
  toPosix := toPosix_impl;
  isSupportedUiExt := isSupportedUiExt_impl;
  ancestors := ancestors_impl slash;
  copy_tree := copy_tree_impl slash
|}.


(** A project with the usual layout. *)
Definition demo : BaseFactory.t := {|
  BaseFactory.projectPath := {|
    BaseFactory.popupIndexList := ["/proj/popup.tsx"; "/proj/popup/index.tsx"];
    BaseFactory.popupHtmlList := ["/proj/popup.html"; "/proj/popup/index.html"];
    BaseFactory.optionsIndexList := ["/proj/options.tsx"; "/proj/options/index.tsx"];
    BaseFactory.optionsHtmlList := ["/proj/options.html"; "/proj/options/index.html"];
    BaseFactory.devtoolsIndexList := ["/proj/devtools.tsx"; "/proj/devtools/index.tsx"];
    BaseFactory.devtoolsHtmlList := ["/proj/devtools.html"; "/proj/devtools/index.html"];
    BaseFactory.newtabIndexList := ["/proj/newtab.tsx"; "/proj/newtab/index.tsx"];
    BaseFactory.newtabHtmlList := ["/proj/newtab.html"; "/proj/newtab/index.html"]
  |};
  BaseFactory.commonPath := {|
    BaseFactory.staticDirectory := "/proj/.plasmo/static";
    BaseFactory.dotPlasmoDirectory := "/proj/.plasmo"
  |};
  BaseFactory.mountExt := ".tsx";
  BaseFactory.name := "demo";
  BaseFactory.templatePath := {| BaseFactory.staticTemplatePath := "/tpl/static" |};
  BaseFactory.staticScaffoldPath := "/tpl/static/react"
|}.

(** The same project under another display name. *)
Definition demo_named (displayName : string) : BaseFactory.t := {|
  BaseFactory.projectPath := BaseFactory.projectPath demo;
  BaseFactory.commonPath := BaseFactory.commonPath demo;
  BaseFactory.mountExt := BaseFactory.mountExt demo;
  BaseFactory.name := displayName;
  BaseFactory.templatePath := BaseFactory.templatePath demo;
  BaseFactory.staticScaffoldPath := BaseFactory.staticScaffoldPath demo
|}.


(** The built-in templates, shortened, and an empty project directory. *)
Definition templates : gmap string Node :=
  list_to_map [
    ("/", Dir);
    ("/proj", Dir);
    ("/tpl", Dir);
    ("/tpl/static", Dir);
    ("/tpl/static/common", Dir);
    ("/tpl/static/common/env.d.ts", File "declare module '*.png'");
    ("/tpl/static/react", Dir);
    ("/tpl/static/react/index.tsx",
       File "import * as Component from '__plasmo_import_module__'");
    ("/tpl/static/react/index.html",
       File "<html><head><title>__plasmo_static_index_title__</title></head><body><div id=root></div><script src='__plasmo_static_script__' type=module></script></body></html>");
    ("/tpl/static/react/content-script-ui-mount.tsx",
       File "import * as RawMount from '__plasmo_mount_content_script__'")
  ].

(** The same with the output directories made. *)
Definition scaffolded : gmap string Node :=
  <["/proj/.plasmo/static" := Dir]> (<["/proj/.plasmo" := Dir]> templates).

(** The built-in templates and a popup page written by the user. *)
Definition with_popup_html (html : string) : gmap string Node :=
  <["/proj/popup.html" := File html]> scaffolded.




Definition worker_ts : ParsedPath.t := {|
  ParsedPath.root := "";
  ParsedPath.dir := "workers";
  ParsedPath.base := "worker.ts";
  ParsedPath.ext := ".ts";
  ParsedPath.name := "worker"
|}.


(** The built-in templates and a new-tab page written by the user. *)
Definition with_newtab_index : gmap string Node :=
  <["/proj/newtab.tsx" := File "export default () => null"]> templates.

(** A fresh scaffolder in a world that holds [n]. *)
Definition fresh (n : gmap string Node) : State := mkState ∅ n [].

(** A project with a new-tab module and a popup page of the user's, before
    the first run of [init]. *)
Definition before_init : State :=
  fresh (<["/proj/popup.html" := File "<html><body><h1>__plasmo_static_index_title__</h1></body></html>"]>
           with_newtab_index).

(** The same project when [init] is run again on the same scaffolder: the
    template of the mount scripts is in the cache, and an older document
    of the popup page is in the way. *)
Definition before_rerun : State :=
  mkState {["index.tsx" := "import * as Component from '__plasmo_import_module__'"]}
    (<["/proj/.plasmo/popup.html" := File "<html>stale</html>"]>
       (<["/proj/.plasmo" := Dir]> (nodes before_init)))
    [].

(** The built-in templates, with an [index.html] that is empty. *)
Definition empty_index_html : gmap string Node :=
  <["/tpl/static/react/index.html" := File ""]> scaffolded.

(** The files of the static assets, and where the copy of [init] puts
    them. *)
Definition common_from (p : string) : Prop := below slash "/tpl/static/common" p = true.

Definition common_image : string → string :=
  moved "/tpl/static/common" "/proj/.plasmo/static/common".

(** The schedule that always lets the leftmost thing happen. *)
Definition leftmost (turns : nat) : list nat := repeat 0 turns.

(** [rightmost] always lets the last started thing happen: a number too
    large for a turn lets it pass, so the schedule tries the places from
    the right. *)
Definition rightmost (turns : nat) : list nat :=
  concat (repeat [7; 6; 5; 4; 3; 2; 1; 0] turns).

End Example.

(** Every node of the map lies in directories that are there. *)
Definition well_formed (host : Host) (n : gmap string Node) : Prop :=
  ∀ path node, n !! path = Some node →
    ∀ dir, dir ∈ ancestors host path → n !! dir = Some Dir.

(** The same, checked. *)
Definition well_formedb (host : Host) (n : gmap string Node) : bool :=
  forallb (λ '(path, _), forallb (Disk.is_dir n) (ancestors host path)) (map_to_list n).

(** ** Vocabulary of the specifications *)

(** The page kinds in the order in which [init] lists their generations. *)
Definition uiPages : list ExtensionUIPage := [popup; options; newtab; devtools].

(** [path] holds a file in [s]. *)
Definition isFile (s : State) (path : string) : Prop :=
  ∃ content, nodes s !! path = Some (File content).

(** What the trace of [s] has more than the trace of [s0]. *)
Definition news (s0 s : State) : list Event := drop (length (trace s0)) (trace s).

Section Vocabulary.
Context (host : Host) (plasmoManifest : BaseFactory.t).

(** Where the built-in template [fileName] lives. *)
Definition scaffoldFile (fileName : string) : string :=
  resolve host (BaseFactory.staticScaffoldPath plasmoManifest) fileName.

(** A file can be written at [path]: the directories above it are there
    and [path] is not a directory. *)
Definition writable (n : gmap string Node) (path : string) : Prop :=
  (∀ dir, dir ∈ ancestors host path → n !! dir = Some Dir) ∧ n !! path ≠ Some Dir.

(** [ensureDir path] can be carried out: no file is in its way. *)
Definition clear (n : gmap string Node) (path : string) : Prop :=
  ∀ dir, dir ∈ Disk.chain host path → ∀ content, n !! dir ≠ Some (File content).

(** [wrote s path content pre cache s']: [s'] is [s] after the events [pre],
    none of which changes a node, and a write of [content] to [path], with
    [cache] as the new cache. *)
Definition wrote (s : State) (path content : string) (pre : list Event)
    (cache : gmap string string) (s' : State) : Prop :=
  writable (nodes s) path ∧
  s' = mkState cache (<[path := File content]> (nodes s))
         (trace s ++ pre ++ [EvWrite path content]).

(** How a template text is obtained: from the cache when the entry is
    truthy, from the template file otherwise. *)
Inductive loaded (fileName : string) (s : State)
  : string → list Event → gmap string string → Prop :=
| loaded_hit (c : ascii) (t : string) :
    scaffoldCache s !! fileName = Some (String c t) →
    loaded fileName s (String c t) [] (scaffoldCache s)
| loaded_miss (content : string) :
    Scaffolder.falsy (scaffoldCache s !! fileName) = true →
    nodes s !! scaffoldFile fileName = Some (File content) →
    loaded fileName s (Utf8.decode content) [EvRead (scaffoldFile fileName)]
      (<[fileName := Utf8.decode content]> (scaffoldCache s)).

(** The root-mount element and the module script tag that
    [generateHtml] puts in front of the closing-body marker. *)
Definition mountPoint (scriptMountPath : string) : string :=
  "<div id=" +:+ quot +:+ "root" +:+ quot +:+ "></div><script src=" +:+ quot
  +:+ scriptMountPath +:+ quot +:+ " type=" +:+ quot +:+ "module" +:+ quot
  +:+ "></script>".

(** Whether a candidate of the page's index list exists in [s]. *)
Definition hasIndex (s : State) (uiPageName : ExtensionUIPage) : bool :=
  bool_decide (List.find (fs.existsSync s)
                 (BaseFactory.IndexList (BaseFactory.projectPath plasmoManifest) uiPageName)
               ≠ None).

(** [instantiated fileName out replaceMap s s']: [s'] is [s] after the
    built-in template [fileName] was loaded and written to [out] with
    [replaceMap] applied. *)
Definition instantiated (fileName out : string) (replaceMap : list (string * string))
    (s s' : State) : Prop :=
  ∃ t pre cache,
    loaded fileName s t pre cache ∧
    wrote s out (Scaffolder.finalScaffold t replaceMap) pre cache s'.

(** The state after a successful [ensureDir]. *)
Definition with_dir (path : string) (s : State) : State :=
  mkState (scaffoldCache s) (Disk.with_dirs (Disk.chain host path) (nodes s))
    (trace s ++ [EvMkdir path]).

(** The text of the built-in template [fileName] as a scaffolder in state
    [s] has it: the cache entry when it is truthy, what the template file
    decodes to otherwise. *)
Definition template_text (s : State) (fileName : string) : option string :=
  match scaffoldCache s !! fileName with
  | Some (String c t) => Some (String c t)
  | _ =>
      match nodes s !! scaffoldFile fileName with
      | Some (File content) => Some (Utf8.decode content)
      | _ => None
      end
  end.

(** The text of the file at [path]. *)
Definition file_text (s : State) (path : string) : option string :=
  match nodes s !! path with
  | Some (File content) => Some (Utf8.decode content)
  | _ => None
  end.

(** One generation: a built-in template or a file of the user's, to be
    written to [out] with [replaceMap] applied. *)
Inductive Job :=
| FromTemplate (fileName out : string) (replaceMap : list (string * string))
| FromFile (filePath out : string) (replaceMap : list (string * string)).

Definition job_out (j : Job) : string :=
  match j with
  | FromTemplate _ out _ => out
  | FromFile _ out _ => out
  end.

Definition job_map (j : Job) : list (string * string) :=
  match j with
  | FromTemplate _ _ m => m
  | FromFile _ _ m => m
  end.

(** The file the text of a generation comes from. *)
Definition job_source (j : Job) : string :=
  match j with
  | FromTemplate fileName _ _ => scaffoldFile fileName
  | FromFile filePath _ _ => filePath
  end.

Definition job_run (j : Job) : Proc () :=
  match j with
  | FromTemplate fileName out m => Scaffolder.cachedGenerate host plasmoManifest fileName out m
  | FromFile filePath out m => Scaffolder.copyGenerate filePath out m
  end.

(** The text a generation starts from, and what it writes, as the state
    [s] determines them. *)
Definition job_text (s : State) (j : Job) : option string :=
  match j with
  | FromTemplate fileName _ _ => template_text s fileName
  | FromFile filePath _ _ => file_text s filePath
  end.

Definition job_result (s : State) (j : Job) : option string :=
  (λ t, Scaffolder.finalScaffold t (job_map j)) <$> job_text s j.

(** What [generateHtml] generates. *)
Definition html_job (outputPath scriptMountPath : string)
    (htmlFile : option HtmlFile) : Job :=
  match default (HtmlPath "") htmlFile with
  | HtmlPath (String c p) =>
      FromFile (String c p) outputPath
        (Scaffolder.templateReplace plasmoManifest scriptMountPath
           ++ [("</body>", Scaffolder.bodyInjection scriptMountPath)])
  | _ =>
      FromTemplate "index.html" outputPath
        (Scaffolder.templateReplace plasmoManifest scriptMountPath)
  end.

(** Where the mount script and the HTML document of a page go. *)
Definition pageScript (uiPageName : ExtensionUIPage) : string :=
  resolve host (BaseFactory.staticDirectory (BaseFactory.commonPath plasmoManifest))
    (pageName uiPageName +:+ BaseFactory.mountExt plasmoManifest).

Definition pageHtml (uiPageName : ExtensionUIPage) : string :=
  resolve host (BaseFactory.dotPlasmoDirectory (BaseFactory.commonPath plasmoManifest))
    (pageName uiPageName +:+ ".html").

(** The two files [#initUiPageTemplate] writes for a page. *)
Definition pageOutputs (uiPageName : ExtensionUIPage) : list string :=
  [pageScript uiPageName; pageHtml uiPageName].

(** The two generations of a page, for the files found in [s]. *)
Definition page_jobs (s : State) (uiPageName : ExtensionUIPage) : list Job :=
  let files := Scaffolder.findPageFiles plasmoManifest uiPageName s in
  [FromTemplate ("index" +:+ BaseFactory.mountExt plasmoManifest) (pageScript uiPageName)
     [("__plasmo_import_module__",
       Scaffolder.indexImport host plasmoManifest uiPageName files.1)];
   html_job (pageHtml uiPageName)
     ("./static/" +:+ pageName uiPageName +:+ BaseFactory.mountExt plasmoManifest)
     (Some (default (HtmlPath "") (HtmlPath <$> files.2)))].

Definition init_jobs (s : State) : list Job := concat (page_jobs s <$> uiPages).





(** No generation of the list writes where one of them reads. *)
Definition isolated (jobs : list Job) : Prop :=
  ∀ j j', j ∈ jobs → j' ∈ jobs → job_source j ≠ job_out j'.

End Vocabulary.

(** ** What every turn of a run respects *)

Section Within.
Context (host : Host) (plasmoManifest : BaseFactory.t) (s0 : State).
Context (input : string → Prop) (goal : string → Node → Prop) (may : Event → Prop).

(** [path] holds what it is meant to hold. *)
Definition done (s : State) (path : string) : Prop :=
  ∃ node, goal path node ∧ nodes s !! path = Some node.

(** The event has taken place since [s0]. *)
Definition happened (e : Event) (s : State) : Prop := e ∈ news s0 s.

(** A run that started in [s0] has gone from [s] to [s']: only events
    that [may] take place have; the files at the [input] paths are as
    they were; a path that held what it is meant to hold does so still;
    the cache entries that were truthy in [s0] are as they were; an entry
    of a template whose file is an input has at most become the text of
    that template; and an entry has only changed if the template file has
    been read. *)
Definition within (s s' : State) : Prop :=
  (∃ events, trace s' = trace s ++ events ∧ Forall may events) ∧
  (∀ path content, input path →
     nodes s !! path = Some (File content) ↔ nodes s' !! path = Some (File content)) ∧
  (∀ path, done s path → done s' path) ∧
  (∀ f c t, scaffoldCache s0 !! f = Some (String c t) →
     scaffoldCache s !! f = Some (String c t) →
     scaffoldCache s' !! f = Some (String c t)) ∧
  (∀ f c t, input (scaffoldFile host plasmoManifest f) →
     scaffoldCache s' !! f = Some (String c t) →
     scaffoldCache s !! f = Some (String c t)
     ∨ template_text host plasmoManifest s0 f = Some (String c t)) ∧
  (∀ f, scaffoldCache s' !! f = scaffoldCache s !! f
        ∨ happened (EvRead (scaffoldFile host plasmoManifest f)) s').

(** Whether a generation reads its source: a template with a truthy
    entry in the cache is not read. *)
Definition job_reads (j : Job) : Prop :=
  match j with
  | FromTemplate fileName _ _ => Scaffolder.falsy (scaffoldCache s0 !! fileName) = true
  | FromFile _ _ _ => True
  end.

(** What a generation has brought about. *)
Definition job_post (j : Job) (s : State) : Prop :=
  within s0 s ∧
  ∃ t,
    (input (job_source host plasmoManifest j) →
     job_text host plasmoManifest s0 j = Some t) ∧
    happened (EvWrite (job_out j) (Scaffolder.finalScaffold t (job_map j))) s ∧
    (goal (job_out j) (File (Scaffolder.finalScaffold t (job_map j))) →
     done s (job_out j)).

(** What is asked of a generation: it may read and write as it does, it
    does not write to an input, and what it writes is what its output is
    meant to hold, if that is meant to hold a file. *)
Definition job_ok (j : Job) : Prop :=
  (job_reads j → may (EvRead (job_source host plasmoManifest j))) ∧
  (∀ t, may (EvWrite (job_out j) t)) ∧
  ¬ input (job_out j) ∧
  ∀ t content,
    (input (job_source host plasmoManifest j) →
     job_text host plasmoManifest s0 j = Some t) →
    goal (job_out j) (File content) →
    goal (job_out j) (File (Scaffolder.finalScaffold t (job_map j))).

(** What a method that makes a directory and then starts generations has
    brought about. *)
Definition made_post (dir : string) (jobs : list Job) (s : State) : Prop :=
  within s0 s ∧
  happened (EvMkdir dir) s ∧
  (goal dir Dir → done s dir) ∧
  Forall (λ j, job_post j s) jobs.

(** What [init] has brought about; [made] are the paths its copy is to
    fill. *)
Definition init_post (made : string → Prop) (s : State) (r : list bool) (s' : State) : Prop :=
  r = hasIndex plasmoManifest s <$> uiPages ∧
  within s0 s' ∧
  happened
    (EvCopy
       (resolve host
          (BaseFactory.staticTemplatePath (BaseFactory.templatePath plasmoManifest))
          "common")
       (resolve host (BaseFactory.staticDirectory (BaseFactory.commonPath plasmoManifest))
          "common")) s' ∧
  (∀ q, made q → done s' q) ∧
  Forall (λ u, made_post (BaseFactory.staticDirectory (BaseFactory.commonPath plasmoManifest))
                 (page_jobs host plasmoManifest s u) s') uiPages.

End Within.

Section Respects.
Context (input : string → Prop) (goal : string → Node → Prop).

(** A change of the disk that leaves the input files as they are and
    keeps what a path is meant to hold where it holds it: what is asked of
    the copy of the host. *)
Definition respects (n n' : gmap string Node) : Prop :=
  (∀ path content, input path →
     n !! path = Some (File content) ↔ n' !! path = Some (File content)) ∧
  (∀ path node, goal path node → n !! path = Some node →
     ∃ node', goal path node' ∧ n' !! path = Some node').

End Respects.

(** ** Methods as lists of calls *)

(** Every call the method can issue is one of [ok]. *)
Fixpoint calls (ok : ∀ B, Request B → Prop) {A} (p : Proc A) : Prop :=
  match p with
  | Ret _ => True
  | Throw _ => True
  | Look k => ∀ s, calls ok (k s)
  | SetCache _ _ p => calls ok p
  | Await r k => ok _ r ∧ ∀ b, calls ok (k b)
  | Resume p => calls ok p
  | Par l r k => calls ok l ∧ calls ok r ∧ ∀ b c, calls ok (k b c)
  end.

(** ** The substitution in the words of the specification *)



(** ** Rejections *)

(** The promise of the call [p] made in [s] is rejected with [e], under
    some schedule. *)
Definition rejected (host : Host) {A} (p : Proc A) (s : State) (e : Error) : Prop :=
  ∃ schedule s', run host schedule p s = (Throw e, s').

(** It is fulfilled under some schedule. *)
Definition succeeds (host : Host) {A} (p : Proc A) (s : State) : Prop :=
  ∃ a s', fulfils host p s a s'.

(** ** What may happen *)

(** What may happen in a run of [init]. *)
Definition init_may (host : Host) (plasmoManifest : BaseFactory.t) (e : Event) : Prop :=
  match e with
  | EvRead _ => True
  | EvWrite path _ => path ∈ concat (pageOutputs host plasmoManifest <$> uiPages)
  | EvMkdir dir =>
      dir = BaseFactory.staticDirectory (BaseFactory.commonPath plasmoManifest)
  | EvCopy src dest =>
      src = resolve host
              (BaseFactory.staticTemplatePath (BaseFactory.templatePath plasmoManifest))
              "common" ∧
      dest = resolve host
               (BaseFactory.staticDirectory (BaseFactory.commonPath plasmoManifest))
               "common"
  end.


(** ** What the generations of a run leave *)

Section Results.
Context (host : Host) (plasmoManifest : BaseFactory.t) (s0 : State) (jobs : list Job).
Context (copied : string → Prop) (copy : string → Node → Prop).

(** The paths the run does not write: not an output of a generation and
    not filled by the copy. *)
Definition others (path : string) : Prop := (path ∉ job_out <$> jobs) ∧ ¬ copied path.

(** What the paths it writes are meant to hold: the result of the
    generation that writes there, or what the copy puts there. *)
Definition results (path : string) (node : Node) : Prop :=
  (∃ j, j ∈ jobs ∧ job_out j = path ∧
        ∃ content, job_result host plasmoManifest s0 j = Some content ∧ node = File content)
  ∨ copy path node.

(** No generation reads what the run writes. *)
Definition sources_apart : Prop :=
  ∀ j, j ∈ jobs → others (job_source host plasmoManifest j).

End Results.

(** ** The copy of a tree *)

(** What is asked of the host's copy of [src] to [dest]: the file at a
    path [p] of the tree, [from p], is put at [image p], two paths of the
    tree are not put at the same place, and no other file is made, changed
    or removed. *)
Definition copies (host : Host) (src dest : string) (from : string → Prop)
    (image : string → string) : Prop :=
  (∀ p p', from p → from p' → image p = image p' → p = p') ∧
  ∀ n n', copy_tree host src dest n = Some n' →
    (∀ p content, from p → n !! p = Some (File content) →
       n' !! image p = Some (File content)) ∧
    (∀ q content, (∀ p, from p → image p ≠ q) →
       n !! q = Some (File content) ↔ n' !! q = Some (File content)).

(** Where the copy puts something. *)
Definition copied_to (from : string → Prop) (image : string → string)
    (q : string) : Prop :=
  ∃ p, from p ∧ image p = q.

(** What it puts there, in a run that started in [s0]. *)
Definition copy_of (s0 : State) (from : string → Prop) (image : string → string)
    (q : string) (node : Node) : Prop :=
  ∃ p content, from p ∧ image p = q ∧ nodes s0 !! p = Some (File content) ∧
               node = File content.

(** ** The inputs of a run of [init] *)

Section Inputs.
Context (host : Host) (plasmoManifest : BaseFactory.t).
Context (from : string → Prop) (image : string → string).

(** The outputs of the run, the files its copy makes and the files it
    reads are different files: the outputs differ from one another, no
    generation reads an output or a copied file, and the tree that is
    copied holds neither an output nor a copied file. *)
Definition apart (s : State) : Prop :=
  let jobs := init_jobs host plasmoManifest s in
  NoDup (job_out <$> jobs) ∧
  sources_apart host plasmoManifest jobs (copied_to from image) ∧
  (∀ p, from p → others jobs (copied_to from image) p) ∧
  (∀ p, from p → image p ∉ job_out <$> jobs).

(** Two states hold the same inputs: the same candidates of the pages
    exist, the templates have the same text, the HTML files of the user
    hold the same, and so do the files of the tree that is copied. *)
Definition same_inputs (sa sb : State) : Prop :=
  (∀ uiPageName path,
     path ∈ BaseFactory.IndexList (BaseFactory.projectPath plasmoManifest) uiPageName
            ++ BaseFactory.HtmlList (BaseFactory.projectPath plasmoManifest) uiPageName →
     fs.existsSync sa path = fs.existsSync sb path) ∧
  (∀ fileName,
     fileName ∈ ["index" +:+ BaseFactory.mountExt plasmoManifest; "index.html"] →
     template_text host plasmoManifest sa fileName
     = template_text host plasmoManifest sb fileName) ∧
  (∀ uiPageName path,
     path ∈ BaseFactory.HtmlList (BaseFactory.projectPath plasmoManifest) uiPageName →
     file_text sa path = file_text sb path) ∧
  (∀ p content, from p →
     nodes sa !! p = Some (File content) ↔ nodes sb !! p = Some (File content)).

End Inputs.

(** ** The run of a method *)

Lemma settle_Par {A B C} (l : Proc B) (r : Proc C) (k : B → C → Proc A) (s : State) :
  settle (Par l r k) s
  = let '(l', s1) := settle l s in
    let '(r', s2) := settle r s1 in
    gather l' r' k s2.
Proof.
  cbn [settle]. destruct (settle l s) as [l' s1], (settle r s1) as [r' s2].
  by destruct l', r'.
Qed.

Lemma gather_disk {A B C} (l : Proc B) (r : Proc C) (k : B → C → Proc A) s p' s' :
  (∀ b c s0 p0 s0', settle (k b c) s0 = (p0, s0') →
     nodes s0' = nodes s0 ∧ trace s0' = trace s0) →
  gather l r k s = (p', s') → nodes s' = nodes s ∧ trace s' = trace s.
Proof.
  intros Hk Hg. destruct l, r; cbn [gather] in Hg;
    try (by injection Hg as <- <-). by eapply Hk.
Qed.

(** Running up to the first call leaves the disk and the trace alone. *)
Lemma settle_disk {A} (p : Proc A) :
  ∀ s p' s', settle p s = (p', s') → nodes s' = nodes s ∧ trace s' = trace s.
Proof.
  induction p as [A a|A e|A k IH|A f v p IH|A B r k IH|A p IH|A B C l IHl r IHr k IHk];
    intros s p' s' Hs; try (by injection Hs as <- <-).
  - cbn in Hs. by eapply IH.
  - cbn in Hs. by destruct (IH _ _ _ Hs) as [-> ->].
  - rewrite settle_Par in Hs.
    destruct (settle l s) as [l' s1] eqn:El, (settle r s1) as [r' s2] eqn:Er.
    destruct (IHl _ _ _ El) as [N1 T1], (IHr _ _ _ Er) as [N2 T2].
    destruct (gather_disk l' r' k s2 p' s' (λ b c, IHk b c) Hs) as [N3 T3].
    split; congruence.
Qed.

Section Soundness.
Context (host : Host) (T : State → State → Prop).

Lemma stable_rtc (P : State → Prop) (s s' : State) :
  stable T P → P s → rtc T s s' → P s'.
Proof. intros HP Hs H. induction H as [|s1 s2 s3 H12 _ IH]; [done|]. apply IH. by eapply HP. Qed.

Lemma waits_stable {A} (p : Proc A) :
  ∀ Q s s', (∀ a, stable T (Q a)) → waits host T p Q s → T s s' → waits host T p Q s'.
Proof.
  induction p as [A a|A e|A k IH|A f v p IH|A B r k IH|A p IH|A B C l IHl r IHr k IHk];
    intros Q s s' HQ H Hstep; cbn in *.
  - by eapply HQ.
  - done.
  - done.
  - done.
  - destruct H as (I & HI & Hst & H). exists I. split; [by eapply Hst|]. by split.
  - destruct H as (I & HI & Hst & H). exists I. split; [by eapply Hst|]. by split.
  - destruct H as (Ql & Qr & Hl & Hr & HQl & HQr & Hk). exists Ql, Qr.
    split; [by eapply IHl|]. split; [by eapply IHr|]. done.
Qed.

Lemma waits_rtc {A} (p : Proc A) Q s s' :
  (∀ a, stable T (Q a)) → waits host T p Q s → rtc T s s' → waits host T p Q s'.
Proof.
  intros HQ Hs H. induction H as [|s1 s2 s3 H12 _ IH]; [done|].
  apply IH. by eapply waits_stable.
Qed.

Lemma gather_sound {A B C} (l : Proc B) (r : Proc C) (k : B → C → Proc A)
    Ql Qr Q s p' s' :
  (∀ b c s0 p0 s0', wp host T (k b c) Q s0 → settle (k b c) s0 = (p0, s0') →
     rtc T s0 s0' ∧ waits host T p0 Q s0') →
  waits host T l Ql s → waits host T r Qr s →
  (∀ b, stable T (Ql b)) → (∀ c, stable T (Qr c)) →
  (∀ b c s', Ql b s' → Qr c s' → wp host T (k b c) Q s') →
  gather l r k s = (p', s') →
  rtc T s s' ∧ waits host T p' Q s'.
Proof.
  intros Hset Hl Hr HQl HQr Hk Hg.
  destruct l, r; cbn [gather] in Hg; try (by destruct Hl); try (by destruct Hr);
    try (injection Hg as <- <-; split; [apply rtc_refl|]; cbn [waits];
         first [done | by exists Ql, Qr]).
  eapply Hset; [|exact Hg]. by apply Hk.
Qed.

Lemma wp_settle {A} (p : Proc A) :
  ∀ Q s p' s', wp host T p Q s → settle p s = (p', s') →
    rtc T s s' ∧ waits host T p' Q s'.
Proof.
  induction p as [A a|A e|A k IH|A f v p IH|A B r k IH|A p IH|A B C l IHl r IHr k IHk];
    intros Q s p' s' H Hs.
  - injection Hs as <- <-. by split.
  - injection Hs as <- <-. by split.
  - cbn in *. by eapply IH.
  - cbn in *. destruct H as [Hstep H]. destruct (IH _ _ _ _ H Hs) as [Hr Hw].
    split; [by eapply rtc_l|done].
  - injection Hs as <- <-. by split.
  - injection Hs as <- <-. by split.
  - rewrite settle_Par in Hs.
    destruct (settle l s) as [l' s1] eqn:El, (settle r s1) as [r' s2] eqn:Er.
    destruct H as (I & Ql & Qr & HI & Hst & Hl & Hr & HQl & HQr & Hk).
    destruct (IHl _ _ _ _ Hl El) as [R1 W1].
    pose proof (stable_rtc _ _ _ Hst HI R1) as HI1.
    destruct (settle_disk _ _ _ _ El) as [N1 T1].
    destruct (IHr _ _ _ _ (Hr _ N1 T1 HI1) Er) as [R2 W2].
    pose proof (waits_rtc _ _ _ _ HQl W1 R2) as W1'.
    destruct (gather_sound l' r' k Ql Qr Q s2 p' s' (λ b c, IHk b c Q) W1' W2 HQl HQr Hk Hs)
      as [R3 W3].
    split; [|done]. etrans; [exact R1|]. by etrans.
Qed.

Lemma waits_act {A} (p : Proc A) :
  ∀ Q n s p' s', waits host T p Q s → n < count p → act host n p s = (p', s') →
    rtc T s s' ∧ waits host T p' Q s'.
Proof.
  induction p as [A a|A e|A k IH|A f v p IH|A B r k IH|A p IH|A B C l IHl r IHr k IHk];
    intros Q n s p' s' H Hn Ha; cbn [count] in Hn; try lia.
  - cbn in *. destruct H as (I & HI & Hst & H).
    destruct (perform host r s) as [b s2|e] eqn:Ep.
    + injection Ha as <- <-. destruct (H _ _ _ HI Ep) as [Hstep (I' & HI' & Hst' & Hk)].
      split; [by apply rtc_once|]. by exists I'.
    + injection Ha as <- <-. split; [apply rtc_refl|].
      exists (λ _, True). by split.
  - cbn in *. destruct H as (I & HI & Hst & H). eapply wp_settle; [|exact Ha]. by apply H.
  - cbn [act] in Ha. cbn [waits] in H.
    destruct H as (Ql & Qr & Hl & Hr & HQl & HQr & Hk).
    destruct (n <? count l)%nat eqn:En.
    + apply Nat.ltb_lt in En.
      destruct (act host n l s) as [l' s1] eqn:El.
      destruct (IHl _ _ _ _ _ Hl En El) as [R1 W1].
      pose proof (waits_rtc _ _ _ _ HQr Hr R1) as W2.
      destruct (gather_sound l' r k Ql Qr Q s1 p' s'
                  (λ b c s0 p0 s0', wp_settle (k b c) Q s0 p0 s0') W1 W2 HQl HQr Hk Ha)
        as [R3 W3].
      split; [by etrans|done].
    + apply Nat.ltb_ge in En.
      destruct (act host (n - count l) r s) as [r' s1] eqn:Er.
      assert (n - count l < count r) as Hn' by lia.
      destruct (IHr _ _ _ _ _ Hr Hn' Er) as [R1 W1].
      pose proof (waits_rtc _ _ _ _ HQl Hl R1) as W2.
      destruct (gather_sound l r' k Ql Qr Q s1 p' s'
                  (λ b c s0 p0 s0', wp_settle (k b c) Q s0 p0 s0') W2 W1 HQl HQr Hk Ha)
        as [R3 W3].
      split; [by etrans|done].
Qed.

Lemma waits_turns {A} (schedule : list nat) :
  ∀ (p : Proc A) Q s p' s', waits host T p Q s → turns host schedule p s = (p', s') →
    rtc T s s' ∧ waits host T p' Q s'.
Proof.
  induction schedule as [|n schedule IH]; intros p Q s p' s' H Ht; cbn in Ht.
  - injection Ht as <- <-. by split.
  - unfold turn in Ht. destruct (n <? count p)%nat eqn:En.
    + apply Nat.ltb_lt in En. destruct (act host n p s) as [p1 s1] eqn:Ea.
      destruct (waits_act _ _ _ _ _ _ H En Ea) as [R1 W1].
      destruct (IH _ _ _ _ _ W1 Ht) as [R2 W2]. split; [by etrans|done].
    + by eapply IH.
Qed.

(** Soundness: what [wp] promises holds at the end of every run. *)
Lemma wp_run {A} (p : Proc A) Q schedule s a s' :
  wp host T p Q s → run host schedule p s = (Ret a, s') → Q a s' ∧ rtc T s s'.
Proof.
  intros H Hr. unfold run in Hr. destruct (settle p s) as [p1 s1] eqn:Es.
  destruct (wp_settle _ _ _ _ _ H Es) as [R1 W1].
  destruct (waits_turns _ _ _ _ _ _ W1 Hr) as [R2 W2].
  split; [exact W2|by etrans].
Qed.

Lemma wp_fulfils {A} (p : Proc A) Q s a s' :
  wp host T p Q s → fulfils host p s a s' → Q a s' ∧ rtc T s s'.
Proof. intros H [schedule Hr]. by eapply wp_run. Qed.

Lemma wp_mono {A} (p : Proc A) :
  ∀ (Q Q' : A → State → Prop) s,
    (∀ a s, Q a s → Q' a s) → wp host T p Q s → wp host T p Q' s.
Proof.
  induction p as [A a|A e|A k IH|A f v p IH|A B r k IH|A p IH|A B C l IHl r IHr k IHk];
    intros Q Q' s HQ H; cbn in *.
  - by apply HQ.
  - done.
  - by eapply IH.
  - destruct H as [H1 H2]. split; [done|]. by eapply IH.
  - destruct H as (I & HI & Hst & H). exists I. split; [done|]. split; [done|].
    intros s1 b s2 H1 H2. destruct (H _ _ _ H1 H2) as [Hstep (I' & HI' & Hst' & Hk)].
    split; [done|]. exists I'. split; [done|]. split; [done|].
    intros s3 H3. eapply IH; [exact HQ|]. by apply Hk.
  - destruct H as (I & HI & Hst & H). exists I. split; [done|]. split; [done|].
    intros s' Hs'. eapply IH; [exact HQ|]. by apply H.
  - destruct H as (I & Ql & Qr & HI & Hst & Hl & Hr & HQl & HQr & Hk).
    exists I, Ql, Qr. repeat (split; [done|]).
    intros b c s' Hb Hc. eapply IHk; [exact HQ|]. by apply Hk.
Qed.

Lemma wp_bind {A B} (p : Proc A) (f : A → Proc B) :
  ∀ (Q : B → State → Prop) s,
    wp host T p (λ a s, wp host T (f a) Q s) s → wp host T (p ≫= f) Q s.
Proof.
  unfold mbind, Proc_mbind.
  induction p as [A a|A e|A k IH|A g v p IH|A C r k IH|A p IH|A C D l IHl r IHr k IHk];
    intros Q s H; cbn in *.
  - done.
  - done.
  - by apply IH.
  - destruct H as [H1 H2]. split; [done|]. by apply IH.
  - destruct H as (I & HI & Hst & H). exists I. split; [done|]. split; [done|].
    intros s1 b s2 H1 H2. destruct (H _ _ _ H1 H2) as [Hstep (I' & HI' & Hst' & Hk)].
    split; [done|]. exists I'. split; [done|]. split; [done|].
    intros s3 H3. apply IH. by apply Hk.
  - destruct H as (I & HI & Hst & H). exists I. split; [done|]. split; [done|].
    intros s' Hs'. apply IH. by apply H.
  - destruct H as (I & Ql & Qr & HI & Hst & Hl & Hr & HQl & HQr & Hk).
    exists I, Ql, Qr. repeat (split; [done|]).
    intros b c s' Hb Hc. apply IHk. by apply Hk.
Qed.

(** What is stable and holds at the start holds at the end. *)
Lemma wp_frame {A} (p : Proc A) (F : State → Prop) :
  stable T F →
  ∀ (Q : A → State → Prop) s,
    wp host T p Q s → F s → wp host T p (λ a s', Q a s' ∧ F s') s.
Proof.
  intros HF.
  induction p as [A a|A e|A k IH|A f v p IH|A B r k IH|A p IH|A B C l IHl r IHr k IHk];
    intros Q s H Hs; cbn in *.
  - done.
  - done.
  - by apply IH.
  - destruct H as [H1 H2]. split; [done|]. apply IH; [done|]. by eapply HF.
  - destruct H as (I & HI & Hst & H). exists (λ s, I s ∧ F s).
    split; [done|]. split.
    { intros s1 s2 [H1 H2] Hstep. split; [by eapply Hst|by eapply HF]. }
    intros s1 b s2 [H1 H1'] H2. destruct (H _ _ _ H1 H2) as [Hstep (I' & HI' & Hst' & Hk)].
    split; [done|]. exists (λ s, I' s ∧ F s). split; [split; [done|by eapply HF]|].
    split.
    { intros s3 s4 [H3 H3'] Hstep'. split; [by eapply Hst'|by eapply HF]. }
    intros s3 [H3 H3']. apply IH; [by apply Hk|done].
  - destruct H as (I & HI & Hst & H). exists (λ s, I s ∧ F s).
    split; [done|]. split.
    { intros s1 s2 [H1 H2] Hstep. split; [by eapply Hst|by eapply HF]. }
    intros s' [H1 H2]. apply IH; [by apply H|done].
  - destruct H as (I & Ql & Qr & HI & Hst & Hl & Hr & HQl & HQr & Hk).
    exists (λ s, I s ∧ F s), (λ b s, Ql b s ∧ F s), Qr.
    split; [done|]. split.
    { intros s1 s2 [H1 H2] Hstep. split; [by eapply Hst|by eapply HF]. }
    split; [by apply IHl|]. split; [intros s' N1 T1 [H1 H2]; by apply Hr|].
    split.
    { intros b s1 s2 [H1 H2] Hstep. split; [by eapply HQl|by eapply HF]. }
    split; [done|].
    intros b c s' [Hb HF'] Hc. apply IHk; [by apply Hk|done].
Qed.

(** [Promise.all] of a list: each promise with a postcondition of its
    own; all of them start on the disk as it is at the call. *)
Lemma wp_Promise_all {X A} (I : State → Prop) (base : State)
    (f : X → Proc A) (Q : X → A → State → Prop) (xs : list X) :
  stable T I →
  (∀ x, x ∈ xs → ∀ a, stable T (Q x a)) →
  (∀ x, x ∈ xs →
     ∀ s', nodes s' = nodes base → trace s' = trace base → I s' → wp host T (f x) (Q x) s') →
  ∀ s, nodes s = nodes base → trace s = trace base → I s →
    wp host T (Promise_all_of f xs) (λ rs s', Forall2 (λ x r, Q x r s') xs rs) s.
Proof.
  intros HI. induction xs as [|x xs IH]; intros HQ Hf s N Tr Hs.
  - cbn. constructor.
  - cbn [Promise_all_of wp].
    exists I, (Q x), (λ rs s', Forall2 (λ x r, Q x r s') xs rs).
    split; [done|]. split; [done|].
    split; [apply Hf; [apply list_elem_of_here|done..]|].
    split.
    { intros s' N' T' Hs'. apply IH; [| |congruence|congruence|done].
      - intros y Hy. apply HQ. by apply list_elem_of_further.
      - intros y Hy. apply Hf. by apply list_elem_of_further. }
    split; [apply HQ, list_elem_of_here|]. split.
    { intros rs s1 s2 H12 Hstep.
      assert (∀ y, y ∈ xs → ∀ a, stable T (Q y a)) as HQ'
        by (intros y Hy; apply HQ; by apply list_elem_of_further).
      clear -H12 Hstep HQ'. induction H12 as [|y r ys rs Hy _ IH']; constructor.
      - eapply HQ'; [apply list_elem_of_here|exact Hy|exact Hstep].
      - apply IH'. intros z Hz. apply HQ'. by apply list_elem_of_further. }
    intros a rs s' Ha Hrs. cbn. by constructor.
Qed.

End Soundness.

(** ** Methods that await one call at a time *)

Section Sequential.
Context (host : Host).

Lemma lands_settle {A} (p : Proc A) :
  ∀ s p1 s1 a s', par_free p → settle p s = (p1, s1) →
    par_free p1 ∧ (lands host p s a s' ↔ lands host p1 s1 a s').
Proof.
  induction p as [A a0|A e|A k IH|A f v p IH|A B r k IH|A p IH|A B C l IHl r IHr k IHk];
    intros s p1 s1 a s' Hp Hs; cbn in *; try done;
    try (injection Hs as <- <-; by split).
  - by eapply IH.
  - by eapply IH.
Qed.

Lemma turns_lands {A} (schedule : list nat) :
  ∀ (p : Proc A) s a s', par_free p → turns host schedule p s = (Ret a, s') →
    lands host p s a s'.
Proof.
  induction schedule as [|n schedule IH]; intros p s a s' Hp Ht; cbn in Ht.
  - injection Ht as -> ->. by split.
  - unfold turn in Ht. destruct (n <? count p)%nat eqn:En; [|by apply IH].
    destruct p as [a0|e|k|f v p|B r k|p|B C l r k]; cbn in En; try done.
    + cbn [act] in Ht. cbn [lands]. destruct (perform host r s) as [b s1|e] eqn:Ep.
      * exists b, s1. split; [done|]. apply (IH (Resume (k b))); [apply Hp|done].
      * by apply (IH (Resume (Throw e))) in Ht.
    + cbn [act] in Ht. cbn [lands]. destruct (settle p s) as [p1 s1] eqn:Es.
      destruct (lands_settle p s p1 s1 a s' Hp Es) as [Hp1 ->]. by apply IH.
Qed.

Lemma fulfils_lands {A} (p : Proc A) s a s' :
  par_free p → fulfils host p s a s' → lands host p s a s'.
Proof.
  intros Hp [schedule Hr]. unfold run in Hr. destruct (settle p s) as [p1 s1] eqn:Es.
  destruct (lands_settle p s p1 s1 a s' Hp Es) as [Hp1 ->]. by eapply turns_lands.
Qed.

Lemma lands_fulfils {A} (p : Proc A) :
  ∀ s a s', lands host p s a s' → fulfils host p s a s'.
Proof.
  induction p as [A a0|A e|A k IH|A f v p IH|A B r k IH|A p IH|A B C l IHl r IHr k IHk];
    intros s a s' H; cbn in H; try done.
  - destruct H as [-> ->]. by exists [].
  - destruct (IH _ _ _ _ H) as [schedule Hr]. by exists schedule.
  - destruct (IH _ _ _ H) as [schedule Hr]. by exists schedule.
  - destruct H as (b & s1 & Hp & H). destruct (IH _ _ _ _ H) as [schedule Hr].
    exists (0 :: 0 :: schedule). unfold run. cbn. by rewrite Hp.
  - destruct (IH _ _ _ H) as [schedule Hr]. by exists (0 :: schedule).
Qed.

(** For such a method the schedule does not matter. *)
Lemma fulfils_seq {A} (p : Proc A) s a s' :
  par_free p → fulfils host p s a s' ↔ lands host p s a s'.
Proof. intros Hp. split; [by apply fulfils_lands|apply lands_fulfils]. Qed.

Lemma lands_bind {A B} (p : Proc A) (f : A → Proc B) :
  ∀ s b s',
    lands host (p ≫= f) s b s' ↔ ∃ a s1, lands host p s a s1 ∧ lands host (f a) s1 b s'.
Proof.
  unfold mbind, Proc_mbind.
  induction p as [A a0|A e|A k IH|A g v p IH|A C r k IH|A p IH|A C D l IHl r IHr k IHk];
    intros s b s'; cbn.
  - split; [intros H; by exists a0, s|]. by intros (a & s1 & [-> ->] & H).
  - split; [done|]. by intros (a & s1 & [] & _).
  - apply IH.
  - apply IH.
  - split.
    + intros (c & s1 & Hp & (a & s2 & H1 & H2)%IH). exists a, s2. split; [|done]. by exists c, s1.
    + intros (a & s2 & (c & s1 & Hp & H1) & H2). exists c, s1. split; [done|].
      apply IH. by exists a, s2.
  - apply IH.
  - split; [done|]. by intros (a & s1 & [] & _).
Qed.

Lemma lands_functional {A} (p : Proc A) :
  ∀ s a1 s1 a2 s2, lands host p s a1 s1 → lands host p s a2 s2 → a1 = a2 ∧ s1 = s2.
Proof.
  induction p as [A a0|A e|A k IH|A f v p IH|A B r k IH|A p IH|A B C l IHl r IHr k IHk];
    intros s a1 s1 a2 s2 H1 H2; cbn in *; try done.
  - destruct H1 as [<- <-], H2 as [<- <-]. done.
  - by eapply IH.
  - by eapply IH.
  - destruct H1 as (b & t & Hp & H1), H2 as (b' & t' & Hp' & H2).
    rewrite Hp in Hp'. injection Hp' as <- <-. by eapply IH.
  - by eapply IH.
Qed.


End Sequential.

(** ** Strings *)

Section StrFacts.
Import Str.

Lemma sapp_cons (c : ascii) (s t : string) :
  String c s +:+ t = String c (s +:+ t).
Proof. reflexivity. Qed.

Lemma sapp_nil_l (s : string) : "" +:+ s = s.
Proof. reflexivity. Qed.

Lemma sapp_nil_r (s : string) : s +:+ "" = s.
Proof. induction s as [|c s IH]; [done|]. by rewrite sapp_cons, IH. Qed.

Lemma sapp_assoc (s t u : string) : (s +:+ t) +:+ u = s +:+ t +:+ u.
Proof. induction s as [|c s IH]; [done|]. by rewrite !sapp_cons, IH. Qed.


Lemma sdrop_app (s t : string) : drop (String.length s) (s +:+ t) = t.
Proof. induction s as [|c s IH]; [by destruct t|]. rewrite sapp_cons. by simpl. Qed.

Lemma sprefix_app (s t : string) : String.prefix s (s +:+ t) = true.
Proof.
  induction s as [|c s IH]; [by destruct t|].
  rewrite sapp_cons. simpl. by destruct (ascii_dec c c).
Qed.

Lemma sprefix_split (s t : string) :
  String.prefix s t = true → ∃ r, t = s +:+ r.
Proof.
  revert t. induction s as [|c s IH]; intros t H; [by exists t|].
  destruct t as [|d t]; [done|]. simpl in H.
  destruct (ascii_dec c d) as [->|]; [|done].
  destruct (IH _ H) as [r ->]. by exists r.
Qed.

End StrFacts.

Example replaceAll_ex1 : JS.replaceAll "a-b-c" "-" "+" = "a+b+c".
Proof. reflexivity. Qed.
Example replaceAll_ex2 : JS.replaceAll "aaa" "aa" "b" = "ba".
Proof. reflexivity. Qed.
Example replaceAll_ex3 : JS.replaceAll "ab" "" "-" = "-a-b-".
Proof. reflexivity. Qed.
Example replaceAll_ex4 : JS.replaceAll "xAyAz" "A" "[$`|$&|$'|$$|$1]" = "x[x|A|yAz|$|$1]y[xAy|A|z|$|$1]z".
Proof. reflexivity. Qed.

(** ** Properties of [replaceAll] *)

Section ReplaceAll.
Import Str JS.

Lemma GetSubstitution_dollar_free (matched before after template : string) :
  dollar_free template = true →
  GetSubstitution matched before after template = template.
Proof.
  induction template as [|c r IH]; [done|]. simpl.
  intros [Hc Hr]%andb_prop. rewrite (IH Hr).
  apply negb_true_iff in Hc. by rewrite Hc.
Qed.

Lemma includes_occurrences (tok s : string) :
  includes tok s = false ↔ occurrences tok s = 0.
Proof.
  induction s as [|c s IH]; cbn [includes occurrences].
  - destruct (String.prefix tok ""); simpl; split; intros; first [done | lia].
  - destruct (String.prefix tok (String c s)); simpl;
      [split; intros; first [done | lia]|].
    by rewrite IH.
Qed.

Lemma occurrences_app_ge (pre s tok : string) :
  occurrences tok s ≤ occurrences tok (pre +:+ s).
Proof.
  induction pre as [|c pre IH]; [done|].
  rewrite sapp_cons. simpl. lia.
Qed.

Lemma replaceAll_scan_skip (sv rv x before r : string) :
  replaceAll_scan sv rv (String.length x) before (x +:+ r)
  = replaceAll_scan sv rv 0 (before +:+ x) r.
Proof.
  revert before. induction x as [|c x IH]; intros before.
  - rewrite sapp_nil_l, sapp_nil_r. simpl. by destruct r.
  - rewrite sapp_cons. simpl. rewrite IH, sapp_assoc. done.
Qed.

(** The three equations that characterise the scan for a non-empty
    search string. *)
Lemma replaceAll_scan_nil (c : ascii) (sv rv before : string) :
  replaceAll_scan (String c sv) rv 0 before "" = "".
Proof. done. Qed.

Lemma replaceAll_scan_match (c : ascii) (sv rv before r : string) :
  replaceAll_scan (String c sv) rv 0 before (String c sv +:+ r)
  = GetSubstitution (String c sv) before r rv
    +:+ replaceAll_scan (String c sv) rv 0 (before +:+ String c sv) r.
Proof.
  pose proof (sprefix_app (String c sv) r) as Hp.
  pose proof (sdrop_app (String c sv) r) as Hd.
  rewrite sapp_cons in *.
  cbn [replaceAll_scan]. rewrite Hp, Hd.
  cbn [String.length]. f_equal.
  rewrite replaceAll_scan_skip, sapp_assoc. done.
Qed.

Lemma replaceAll_scan_miss (sv rv before r : string) (c : ascii) :
  String.prefix sv (String c r) = false →
  replaceAll_scan sv rv 0 before (String c r)
  = String c (replaceAll_scan sv rv 0 (before +:+ String c "") r).
Proof. intros H. cbn [replaceAll_scan]. by rewrite H. Qed.

Lemma replaceAll_scan_absent (sv rv before s : string) :
  includes sv s = false →
  replaceAll_scan sv rv 0 before s = s.
Proof.
  revert before. induction s as [|c s IH]; intros before H; simpl in H.
  - apply orb_false_elim in H as [H _]. simpl. by rewrite H.
  - apply orb_false_elim in H as [H1 H2].
    rewrite replaceAll_scan_miss by done. by rewrite IH.
Qed.

Lemma replaceAll_scan_once (c : ascii) (sv rv before pre post : string) :
  occurrences (String c sv) (pre +:+ String c sv +:+ post) = 1 →
  replaceAll_scan (String c sv) rv 0 before (pre +:+ String c sv +:+ post)
  = pre +:+ GetSubstitution (String c sv) (before +:+ pre) post rv +:+ post.
Proof.
  revert before. induction pre as [|d pre IH]; intros before H.
  - rewrite !sapp_nil_l in *. rewrite sapp_nil_r.
    rewrite replaceAll_scan_match. f_equal.
    apply replaceAll_scan_absent, includes_occurrences.
    pose proof (sprefix_app (String c sv) post) as Hp.
    pose proof (occurrences_app_ge sv post (String c sv)) as Hge.
    rewrite sapp_cons in *. cbn [occurrences] in H. rewrite Hp in H. lia.
  - pose proof (occurrences_app_ge pre (String c sv +:+ post) (String c sv)) as Hge.
    pose proof (sprefix_app (String c sv) post) as Hp.
    assert (1 ≤ occurrences (String c sv) (String c sv +:+ post)) as Hone.
    { rewrite (sapp_cons c sv) in *. cbn [occurrences]. rewrite Hp. lia. }
    rewrite !(sapp_cons d pre) in *. cbn [occurrences] in H.
    destruct (String.prefix (String c sv) (String d (pre +:+ String c sv +:+ post)))
      eqn:Hpre; [lia|].
    rewrite replaceAll_scan_miss by done.
    rewrite IH by lia. by rewrite sapp_assoc.
Qed.

(** A token that does not occur leaves the text as it is. *)
Lemma replaceAll_absent (s searchValue replaceValue : string) :
  includes searchValue s = false →
  replaceAll s searchValue replaceValue = s.
Proof. apply replaceAll_scan_absent. Qed.

(** A non-empty token that occurs once is replaced where it stands. *)
Lemma replaceAll_once (pre post searchValue replaceValue : string) :
  searchValue ≠ "" →
  occurrences searchValue (pre +:+ searchValue +:+ post) = 1 →
  replaceAll (pre +:+ searchValue +:+ post) searchValue replaceValue
  = pre +:+ GetSubstitution searchValue pre post replaceValue +:+ post.
Proof.
  destruct searchValue as [|c sv]; [done|]. intros _ H.
  unfold replaceAll. by rewrite replaceAll_scan_once.
Qed.

End ReplaceAll.

(** ** The trace *)

Lemma writes_of_app (t1 t2 : list Event) :
  writes_of (t1 ++ t2) = writes_of t1 ++ writes_of t2.
Proof. apply omap_app. Qed.

Lemma reads_of_app (t1 t2 : list Event) :
  reads_of (t1 ++ t2) = reads_of t1 ++ reads_of t2.
Proof. apply omap_app. Qed.

Lemma copies_of_app (t1 t2 : list Event) :
  copies_of (t1 ++ t2) = copies_of t1 ++ copies_of t2.
Proof. apply omap_app. Qed.

(** ** The file-system calls *)

Section DiskFacts.
Context (host : Host).

Lemma is_dir_true (n : gmap string Node) (path : string) :
  Disk.is_dir n path = true ↔ n !! path = Some Dir.
Proof. unfold Disk.is_dir. destruct (n !! path) as [[|]|]; split; done. Qed.

Lemma is_file_true (n : gmap string Node) (path : string) :
  Disk.is_file n path = true ↔ ∃ content, n !! path = Some (File content).
Proof.
  unfold Disk.is_file. destruct (n !! path) as [[c|]|]; split; try done.
  - eauto.
  - by intros [? ?].
  - by intros [? ?].
Qed.

Lemma dirs_there (n : gmap string Node) (dirs : list string) :
  forallb (Disk.is_dir n) dirs = true ↔ ∀ dir, dir ∈ dirs → n !! dir = Some Dir.
Proof.
  rewrite forallb_forall. split.
  - intros H dir Hd. apply is_dir_true, H. by apply list_elem_of_In.
  - intros H dir Hd. apply is_dir_true, H. by apply list_elem_of_In.
Qed.

Lemma no_file (n : gmap string Node) (dirs : list string) :
  existsb (Disk.is_file n) dirs = false ↔
  ∀ dir, dir ∈ dirs → ∀ content, n !! dir ≠ Some (File content).
Proof.
  split.
  - intros H dir Hd content Hc.
    assert (existsb (Disk.is_file n) dirs = true) as Ht; [|by rewrite H in Ht].
    apply existsb_exists. exists dir. split; [by apply list_elem_of_In|].
    apply is_file_true. eauto.
  - intros H. destruct (existsb (Disk.is_file n) dirs) eqn:E; [|done].
    apply existsb_exists in E as (dir & Hd%list_elem_of_In & [content Hc]%is_file_true).
    by destruct (H dir Hd content).
Qed.

Lemma with_dirs_in (dirs : list string) (n : gmap string Node) (path : string) :
  path ∈ dirs → Disk.with_dirs dirs n !! path = Some Dir.
Proof.
  unfold Disk.with_dirs. revert n. induction dirs as [|d dirs IH] using rev_ind; intros n Hp.
  - by apply elem_of_nil in Hp.
  - rewrite foldl_app. cbn. destruct (decide (d = path)) as [->|Hne].
    + by rewrite lookup_insert_eq.
    + rewrite lookup_insert_ne by done. apply IH.
      apply elem_of_app in Hp as [Hp|Hp]; [done|].
      by apply list_elem_of_singleton in Hp.
Qed.

Lemma with_dirs_notin (dirs : list string) (n : gmap string Node) (path : string) :
  path ∉ dirs → Disk.with_dirs dirs n !! path = n !! path.
Proof.
  unfold Disk.with_dirs. revert n. induction dirs as [|d dirs IH] using rev_ind; intros n Hp.
  - done.
  - rewrite foldl_app. cbn. apply not_elem_of_app in Hp as [Hp Hd].
    apply not_elem_of_cons in Hd as [Hd _].
    rewrite lookup_insert_ne by done. by apply IH.
Qed.

(** Making directories where no file is in the way touches no file and
    removes no directory. *)
Lemma with_dirs_file (dirs : list string) (n : gmap string Node) (path content : string) :
  (∀ dir, dir ∈ dirs → ∀ c, n !! dir ≠ Some (File c)) →
  Disk.with_dirs dirs n !! path = Some (File content) ↔ n !! path = Some (File content).
Proof.
  intros Hclear. destruct (decide (path ∈ dirs)) as [Hin|Hout].
  - rewrite with_dirs_in by done. split; [done|]. intros H. by destruct (Hclear _ Hin content).
  - by rewrite with_dirs_notin.
Qed.

Lemma with_dirs_dir (dirs : list string) (n : gmap string Node) (path : string) :
  n !! path = Some Dir → Disk.with_dirs dirs n !! path = Some Dir.
Proof.
  intros H. destruct (decide (path ∈ dirs)) as [Hin|Hout].
  - by apply with_dirs_in.
  - by rewrite with_dirs_notin.
Qed.

Lemma readFile_Ok (path text : string) (s s' : State) :
  Disk.readFile host path s = Ok text s' ↔
  ∃ content,
    nodes s !! path = Some (File content) ∧ text = Utf8.decode content ∧
    s' = mkState (scaffoldCache s) (nodes s) (trace s ++ [EvRead path]).
Proof.
  unfold Disk.readFile, Disk.log. destruct (nodes s !! path) as [[content|]|]; split.
  - intros [= <- <-]. by exists content.
  - intros (c & [= <-] & -> & ->). done.
  - done.
  - by intros (c & ? & _).
  - done.
  - by intros (c & ? & _).
Qed.

Lemma writeFile_Ok (path data : string) (s s' : State) (u : ()) :
  Disk.writeFile host path data s = Ok u s' ↔
  writable host (nodes s) path ∧
  s' = mkState (scaffoldCache s) (<[path := File data]> (nodes s))
         (trace s ++ [EvWrite path data]).
Proof.
  destruct u. unfold Disk.writeFile, Disk.log, Disk.set_nodes, writable. cbn.
  destruct (forallb (Disk.is_dir (nodes s)) (ancestors host path)) eqn:E.
  - pose proof (proj1 (dirs_there _ _) E) as Hd.
    destruct (nodes s !! path) as [[c|]|] eqn:En; split.
    + by intros [= <-].
    + by intros [_ ->].
    + done.
    + by intros [[_ ?] _].
    + by intros [= <-].
    + by intros [_ ->].
  - split; [done|]. intros [[Hd _] _]. apply dirs_there in Hd. by rewrite Hd in E.
Qed.

Lemma ensureDir_Ok (path : string) (s s' : State) (u : ()) :
  Disk.ensureDir host path s = Ok u s' ↔
  clear host (nodes s) path ∧ s' = with_dir host path s.
Proof.
  destruct u. unfold Disk.ensureDir, Disk.log, Disk.set_nodes, with_dir, clear. cbn.
  destruct (existsb (Disk.is_file (nodes s)) (Disk.chain host path)) eqn:E.
  - split; [done|]. intros [Hc _]. apply no_file in Hc. by rewrite Hc in E.
  - pose proof (proj1 (no_file _ _) E) as Hc. split.
    + by intros [= <-].
    + by intros [_ ->].
Qed.

Lemma copy_Ok (src dest : string) (s s' : State) (u : ()) :
  Disk.copy host src dest s = Ok u s' ↔
  ∃ n, copy_tree host src dest (nodes s) = Some n ∧
       s' = mkState (scaffoldCache s) n (trace s ++ [EvCopy src dest]).
Proof.
  destruct u. unfold Disk.copy, Disk.log, Disk.set_nodes. cbn.
  destruct (copy_tree host src dest (nodes s)) as [n|]; split.
  - intros [= <-]. by exists n.
  - by intros (n' & [= <-] & ->).
  - done.
  - by intros (n' & ? & _).
Qed.

End DiskFacts.

(** ** The methods that await one call at a time *)

Section ScaffolderFacts.
Context (host : Host) (plasmoManifest : BaseFactory.t).

Abbreviation generate := Scaffolder.generate.
Abbreviation copyGenerate := Scaffolder.copyGenerate.
Abbreviation cachedGenerate := (Scaffolder.cachedGenerate host plasmoManifest).
Abbreviation finalScaffold := Scaffolder.finalScaffold.

Lemma par_free_generate (t out : string) (m : list (string * string)) :
  par_free (generate t out m).
Proof. by intros b. Qed.

Lemma par_free_copyGenerate (f out : string) (m : list (string * string)) :
  par_free (copyGenerate f out m).
Proof. intros b. apply par_free_generate. Qed.

Lemma par_free_cachedGenerate (f out : string) (m : list (string * string)) :
  par_free (cachedGenerate f out m).
Proof.
  intros s. cbn. destruct (Scaffolder.falsy (scaffoldCache s !! f)); cbn.
  - intros b s1. destruct (scaffoldCache s1 !! f); [apply par_free_generate|done].
  - intros s1. destruct (scaffoldCache s1 !! f); [apply par_free_generate|done].
Qed.

Lemma par_free_generateHtml (out smp : string) (h : option HtmlFile) :
  par_free (Scaffolder.generateHtml host plasmoManifest out smp h).
Proof.
  unfold Scaffolder.generateHtml. destruct (default (HtmlPath "") h) as [[|c p]|].
  - apply par_free_cachedGenerate.
  - apply par_free_copyGenerate.
  - apply par_free_cachedGenerate.
Qed.

Lemma par_free_createPageHtml (uiPageName : ExtensionUIPage) (h : option HtmlFile) :
  par_free (Scaffolder.createPageHtml host plasmoManifest uiPageName h).
Proof. apply par_free_generateHtml. Qed.


Lemma lands_generate (t out : string) (m : list (string * string)) (s s' : State) (u : ()) :
  lands host (generate t out m) s u s' ↔
  wrote host s out (finalScaffold t m) [] (scaffoldCache s) s'.
Proof.
  unfold wrote. cbn. split.
  - intros (b & s1 & H%writeFile_Ok & _ & <-). done.
  - intros H. exists (), s'. split; [by apply writeFile_Ok|]. by destruct u.
Qed.

Lemma lands_copyGenerate (f out : string) (m : list (string * string))
    (s s' : State) (u : ()) :
  lands host (copyGenerate f out m) s u s' ↔
  ∃ content,
    nodes s !! f = Some (File content) ∧
    wrote host s out (finalScaffold (Utf8.decode content) m) [EvRead f] (scaffoldCache s) s'.
Proof.
  unfold copyGenerate. rewrite lands_bind. split.
  - intros (t & s1 & (b & s2 & (c & Hc & -> & ->)%readFile_Ok & <- & <-)
             & [Hw ->]%lands_generate).
    exists c. split; [done|]. split; [done|]. cbn. by rewrite <-app_assoc.
  - intros (c & Hc & Hw & ->). eexists _, _. split.
    + cbn. eexists _, _. split; [apply readFile_Ok; by exists c|done].
    + apply lands_generate. split; [done|]. cbn. by rewrite <-app_assoc.
Qed.

Lemma lands_cachedGenerate (f out : string) (m : list (string * string))
    (s s' : State) (u : ()) :
  lands host (cachedGenerate f out m) s u s' ↔
  instantiated host plasmoManifest f out m s s'.
Proof.
  unfold instantiated. cbn.
  destruct (Scaffolder.falsy (scaffoldCache s !! f)) eqn:Hf; cbn.
  - fold (scaffoldFile host plasmoManifest f). split.
    + intros (t & s1 & (c & Hc & -> & ->)%readFile_Ok & H). cbn in H.
      rewrite lookup_insert_eq in H. apply lands_generate in H as [Hw ->].
      exists (Utf8.decode c), [EvRead (scaffoldFile host plasmoManifest f)],
        (<[f := Utf8.decode c]> (scaffoldCache s)).
      split; [by apply loaded_miss|]. split; [done|]. cbn. by rewrite <-app_assoc.
    + intros (t & pre & cache & Hl & Hw & ->).
      destruct Hl as [c t Hc|c _ Hc]; [by rewrite Hc in Hf|].
      eexists _, _. split; [apply readFile_Ok; by exists c|]. cbn.
      rewrite lookup_insert_eq. apply lands_generate. split; [done|].
      cbn. by rewrite <-app_assoc.
  - destruct (scaffoldCache s !! f) as [[|c t]|] eqn:Hc; try done. split.
    + intros [Hw ->]%lands_generate.
      exists (String c t), [], (scaffoldCache s). split; [by apply loaded_hit|]. done.
    + intros (t' & pre & cache & Hl & Hw & ->).
      destruct Hl as [c' t' Hc'|c' Hf' _]; [|by rewrite Hc in Hf'].
      assert (String c' t' = String c t) as -> by congruence.
      apply lands_generate. done.
Qed.


Lemma fulfils_copyGenerate (f out : string) (m : list (string * string))
    (s s' : State) (u : ()) :
  fulfils host (copyGenerate f out m) s u s' ↔
  ∃ content,
    nodes s !! f = Some (File content) ∧
    wrote host s out (finalScaffold (Utf8.decode content) m) [EvRead f] (scaffoldCache s) s'.
Proof. rewrite fulfils_seq by apply par_free_copyGenerate. apply lands_copyGenerate. Qed.

Lemma fulfils_cachedGenerate (f out : string) (m : list (string * string))
    (s s' : State) (u : ()) :
  fulfils host (cachedGenerate f out m) s u s' ↔
  instantiated host plasmoManifest f out m s s'.
Proof. rewrite fulfils_seq by apply par_free_cachedGenerate. apply lands_cachedGenerate. Qed.



End ScaffolderFacts.

(** ** What every turn of a run respects *)

Lemma elem_of_drop_app {A} (x : A) (n : nat) (l l' : list A) :
  x ∈ drop n l → x ∈ drop n (l ++ l').
Proof. rewrite drop_app. intros H. apply elem_of_app. by left. Qed.

Lemma news_app (s0 s : State) (events : list Event) (s' : State) :
  trace s = trace s0 ++ events → news s0 s = events.
Proof. unfold news. intros ->. by rewrite drop_app_length. Qed.

Section KitFacts.
Context (host : Host) (plasmoManifest : BaseFactory.t) (s0 : State).
Context (input : string → Prop) (goal : string → Node → Prop) (may : Event → Prop).

Abbreviation W := (within host plasmoManifest s0 input goal may).
Abbreviation sf := (scaffoldFile host plasmoManifest).

Lemma within_refl (s : State) : W s s.
Proof.
  split; [|split; [|split; [|split; [|split]]]]; try done.
  - exists []. by rewrite app_nil_r.
  - intros f c t _ H. by left.
  - intros f. by left.
Qed.

Lemma within_trans (s1 s2 s3 : State) : W s1 s2 → W s2 s3 → W s1 s3.
Proof.
  intros (E1 & I1 & D1 & K1 & C1 & R1) (E2 & I2 & D2 & K2 & C2 & R2).
  split; [|split; [|split; [|split; [|split]]]].
  - destruct E1 as (e1 & T1 & F1), E2 as (e2 & T2 & F2).
    exists (e1 ++ e2). split; [by rewrite T2, T1, app_assoc|by apply Forall_app].
  - intros p c Hp. by rewrite I1, I2.
  - intros p Hp. by apply D2, D1.
  - intros f c t H0 H1. by apply K2, K1.
  - intros f c t Hf H3. destruct (C2 f c t Hf H3) as [H2|H2]; [|by right].
    by apply C1.
  - intros f. destruct (R2 f) as [H2|H2]; [|by right].
    destruct (R1 f) as [H1|H1]; [left; congruence|]. right.
    destruct E2 as (e2 & T2 & _). unfold happened, news in *. rewrite T2.
    by apply elem_of_drop_app.
Qed.

Lemma within_rtc (s s' : State) : rtc W s s' → W s s'.
Proof.
  induction 1 as [|s1 s2 s3 H12 _ IH]; [apply within_refl|]. by eapply within_trans.
Qed.

Lemma reached_stable : stable W (W s0).
Proof. intros s s' H1 H2. by eapply within_trans. Qed.

Lemma happened_stable (e : Event) : stable W (happened s0 e).
Proof.
  intros s s' H ((events & Ht & _) & _). unfold happened, news in *.
  rewrite Ht. by apply elem_of_drop_app.
Qed.

Lemma done_stable (path : string) : stable W (λ s, done goal s path).
Proof. intros s s' H (_ & _ & D & _). by apply D. Qed.

Lemma reached_input (s : State) (path content : string) :
  W s0 s → input path →
  nodes s !! path = Some (File content) ↔ nodes s0 !! path = Some (File content).
Proof. intros (_ & I & _) Hp. by rewrite I. Qed.

Lemma reached_kept (s : State) (f : string) (c : ascii) (t : string) :
  W s0 s → scaffoldCache s0 !! f = Some (String c t) →
  scaffoldCache s !! f = Some (String c t).
Proof. intros (_ & _ & _ & K & _) H. by apply K. Qed.

Lemma reached_cache_text (s : State) (f : string) (c : ascii) (t : string) :
  W s0 s → input (sf f) → scaffoldCache s !! f = Some (String c t) →
  template_text host plasmoManifest s0 f = Some (String c t).
Proof.
  intros (_ & _ & _ & _ & C & _) Hf H. destruct (C f c t Hf H) as [H0|H0]; [|done].
  unfold template_text. by rewrite H0.
Qed.

Lemma reached_happened (s s' : State) (e : Event) :
  W s0 s → trace s' = trace s ++ [e] → happened s0 e s'.
Proof.
  intros ((events & Ht & _) & _) Hs'. unfold happened, news.
  rewrite Hs', Ht, <-app_assoc, drop_app_length. apply elem_of_app. right.
  apply list_elem_of_here.
Qed.

(** A miss at a state the run has reached: the entry was falsy at the
    start. *)
Lemma reached_miss (s : State) (f : string) :
  W s0 s → Scaffolder.falsy (scaffoldCache s !! f) = true →
  Scaffolder.falsy (scaffoldCache s0 !! f) = true.
Proof.
  intros H Hf. destruct (scaffoldCache s0 !! f) as [[|c t]|] eqn:E; try done.
  by rewrite (reached_kept _ _ _ _ H E) in Hf.
Qed.

(** *** The turns *)

Lemma step_event (s : State) (e : Event) :
  may e → W s (mkState (scaffoldCache s) (nodes s) (trace s ++ [e])).
Proof.
  intros He. split; [|split; [|split; [|split; [|split]]]]; try done.
  - exists [e]. split; [done|]. by constructor.
  - intros f c t _ H. by left.
  - intros f. by left.
Qed.

Lemma step_write (s : State) (out content : string) :
  may (EvWrite out content) → ¬ input out →
  (∀ content', goal out (File content') → goal out (File content)) →
  nodes s !! out ≠ Some Dir →
  W s (mkState (scaffoldCache s) (<[out := File content]> (nodes s))
         (trace s ++ [EvWrite out content])).
Proof.
  intros He Hin Hg Hd. split; [|split; [|split; [|split; [|split]]]]; cbn.
  - exists [EvWrite out content]. split; [done|]. by constructor.
  - intros p c Hp. rewrite lookup_insert_ne; [done|]. by intros ->.
  - intros p (c & Hc & Hp). unfold done. cbn. destruct (decide (out = p)) as [<-|Hne].
    + exists (File content). split; [|by rewrite lookup_insert_eq].
      destruct c as [c'|]; [by eapply Hg|done].
    + exists c. split; [done|]. by rewrite lookup_insert_ne.
  - done.
  - intros f c t _ H. by left.
  - intros f. by left.
Qed.

Lemma step_mkdir (s : State) (dir : string) :
  may (EvMkdir dir) → clear host (nodes s) dir → W s (with_dir host dir s).
Proof.
  intros He Hc. split; [|split; [|split; [|split; [|split]]]]; cbn.
  - exists [EvMkdir dir]. split; [done|]. by constructor.
  - intros p c Hp. by rewrite with_dirs_file.
  - intros p (c & Hg & Hp). exists c. split; [done|]. cbn.
    destruct c as [c'|]; [by apply with_dirs_file|by apply with_dirs_dir].
  - done.
  - intros f c t _ H. by left.
  - intros f. by left.
Qed.

Lemma step_copy (s : State) (src dest : string) (n : gmap string Node) :
  may (EvCopy src dest) → respects input goal (nodes s) n →
  W s (mkState (scaffoldCache s) n (trace s ++ [EvCopy src dest])).
Proof.
  intros He (I & G). split; [|split; [|split; [|split; [|split]]]]; cbn.
  - exists [EvCopy src dest]. split; [done|]. by constructor.
  - done.
  - intros p (c & Hg & Hp). by eapply G.
  - done.
  - intros f c t _ H. by left.
  - intros f. by left.
Qed.

Lemma step_set (s : State) (f v : string) :
  Scaffolder.falsy (scaffoldCache s0 !! f) = true →
  (input (sf f) → ∀ c t, v = String c t →
     template_text host plasmoManifest s0 f = Some v) →
  happened s0 (EvRead (sf f)) s →
  W s (set_cache f v s).
Proof.
  intros Hf Hv Hr. split; [|split; [|split; [|split; [|split]]]]; cbn.
  - exists []. by rewrite app_nil_r.
  - done.
  - done.
  - intros g c t H0 H. rewrite lookup_insert_ne; [done|]. intros ->. by rewrite H0 in Hf.
  - intros g c t Hg H. destruct (decide (f = g)) as [<-|Hne].
    + rewrite lookup_insert_eq in H. injection H as ->. right. by eapply Hv.
    + rewrite lookup_insert_ne in H by done. by left.
  - intros g. destruct (decide (f = g)) as [<-|Hne]; [by right|].
    left. by rewrite lookup_insert_ne.
Qed.

(** *** The calls *)

Lemma kit_write (out content : string) (Q : () → State → Prop) (s : State) :
  W s0 s → may (EvWrite out content) → ¬ input out →
  (∀ content', goal out (File content') → goal out (File content)) →
  (∀ s', W s0 s' → happened s0 (EvWrite out content) s' →
         (goal out (File content) → done goal s' out) → Q () s') →
  wp host W (fs.writeFile out content) Q s.
Proof.
  intros Hs He Hin Hg HQ. cbn. exists (W s0). split; [done|].
  split; [apply reached_stable|].
  intros s1 [] s2 H1 [[_ Hd] ->]%writeFile_Ok.
  pose proof (step_write s1 out content He Hin Hg Hd) as Hstep.
  split; [done|].
  exists (λ s', W s0 s' ∧ happened s0 (EvWrite out content) s'
                ∧ (goal out (File content) → done goal s' out)).
  split.
  { split; [by eapply within_trans|]. split; [by eapply reached_happened|].
    intros Hgoal. exists (File content). split; [done|]. cbn.
    by rewrite lookup_insert_eq. }
  split.
  { intros s3 s4 (H3 & H3' & H3'') Hstep'. split; [by eapply within_trans|].
    split; [by eapply happened_stable|]. intros Hgoal. eapply done_stable; [|done]. auto. }
  intros s3 (H3 & H3' & H3''). by apply HQ.
Qed.

Lemma kit_read {A} (path : string) (k : string → Proc A) (Q : A → State → Prop)
    (s : State) :
  W s0 s → may (EvRead path) →
  (∀ s' content, W s0 s' → happened s0 (EvRead path) s' →
     (input path → nodes s0 !! path = Some (File content)) →
     wp host W (k (Utf8.decode content)) Q s') →
  wp host W (fs.readFile path ≫= k) Q s.
Proof.
  intros Hs He HQ. cbn. exists (W s0). split; [done|]. split; [apply reached_stable|].
  intros s1 b s2 H1 (content & Hc & -> & ->)%readFile_Ok.
  pose proof (step_event s1 (EvRead path) He) as Hstep. split; [done|].
  exists (λ s', W s0 s' ∧ happened s0 (EvRead path) s'). split.
  { split; [by eapply within_trans|]. by eapply reached_happened. }
  split.
  { intros s3 s4 [H3 H3'] Hstep'. split; [by eapply within_trans|].
    by eapply happened_stable. }
  intros s3 [H3 H3']. apply HQ; [done..|].
  intros Hin. by apply (reached_input s1).
Qed.

Lemma kit_ensureDir {A} (dir : string) (k : () → Proc A) (Q : A → State → Prop)
    (s : State) :
  W s0 s → may (EvMkdir dir) →
  (∀ s', W s0 s' → happened s0 (EvMkdir dir) s' → (goal dir Dir → done goal s' dir) →
     wp host W (k ()) Q s') →
  wp host W (fs.ensureDir dir ≫= k) Q s.
Proof.
  intros Hs He HQ. cbn. exists (W s0). split; [done|]. split; [apply reached_stable|].
  intros s1 [] s2 H1 [Hc ->]%ensureDir_Ok.
  pose proof (step_mkdir s1 dir He Hc) as Hstep. split; [done|].
  exists (λ s', W s0 s' ∧ happened s0 (EvMkdir dir) s' ∧ (goal dir Dir → done goal s' dir)).
  split.
  { split; [by eapply within_trans|]. split; [by eapply reached_happened|].
    intros Hgoal. exists Dir. split; [done|].
    cbn. apply with_dirs_in. unfold Disk.chain. apply elem_of_app. right.
    apply list_elem_of_here. }
  split.
  { intros s3 s4 (H3 & H3' & H3'') Hstep'. split; [by eapply within_trans|].
    split; [by eapply happened_stable|]. intros Hgoal. eapply done_stable; [|done]. auto. }
  intros s3 (H3 & H3' & H3''). by apply HQ.
Qed.

Lemma kit_copy (src dest : string) (made : string → Prop) (Q : () → State → Prop)
    (s : State) :
  W s0 s → may (EvCopy src dest) →
  (∀ s1 n', W s0 s1 → copy_tree host src dest (nodes s1) = Some n' →
     respects input goal (nodes s1) n' ∧
     ∀ q, made q → ∃ node, goal q node ∧ n' !! q = Some node) →
  (∀ s', W s0 s' → happened s0 (EvCopy src dest) s' → (∀ q, made q → done goal s' q) →
     Q () s') →
  wp host W (fs.copy src dest) Q s.
Proof.
  intros Hs He Hcopy HQ. cbn. exists (W s0). split; [done|].
  split; [apply reached_stable|].
  intros s1 [] s2 H1 (n & Hn & ->)%copy_Ok.
  destruct (Hcopy _ _ H1 Hn) as [Hr Hm].
  pose proof (step_copy s1 src dest n He Hr) as Hstep. split; [done|].
  exists (λ s', W s0 s' ∧ happened s0 (EvCopy src dest) s' ∧ ∀ q, made q → done goal s' q).
  split.
  { split; [by eapply within_trans|]. split; [by eapply reached_happened|].
    intros q Hq. by apply Hm. }
  split.
  { intros s3 s4 (H3 & H3' & H3'') Hstep'. split; [by eapply within_trans|].
    split; [by eapply happened_stable|]. intros q Hq. eapply done_stable; [|done]. auto. }
  intros s3 (H3 & H3' & H3''). by apply HQ.
Qed.

(** *** The generations *)

Lemma job_post_stable (j : Job) :
  stable W (job_post host plasmoManifest s0 input goal may j).
Proof.
  intros s s' (H & t & Ht & He & Hg) Hstep. split; [by eapply within_trans|].
  exists t. split; [done|]. split; [by eapply happened_stable|].
  intros Hgoal. eapply done_stable; [|done]. auto.
Qed.

Lemma kit_generate (j : Job) (t : string) (s : State) :
  W s0 s → job_ok host plasmoManifest s0 input goal may j →
  (input (job_source host plasmoManifest j) →
   job_text host plasmoManifest s0 j = Some t) →
  wp host W (Scaffolder.generate t (job_out j) (job_map j))
    (λ _, job_post host plasmoManifest s0 input goal may j) s.
Proof.
  intros Hs (_ & Hw & Hin & Hg) Ht. apply kit_write; [done|apply Hw|done| |].
  - intros content'. by apply Hg.
  - intros s' H1 H2 H3. split; [done|]. by exists t.
Qed.

Lemma kit_job (j : Job) (s : State) :
  W s0 s → job_ok host plasmoManifest s0 input goal may j →
  wp host W (job_run host plasmoManifest j)
    (λ _, job_post host plasmoManifest s0 input goal may j) s.
Proof.
  intros Hs Hok. destruct j as [f out m|p out m]; cbn [job_run].
  - unfold Scaffolder.cachedGenerate. cbn [mbind Proc_mbind Proc_bind
      Scaffolder.get_scaffoldCache wp].
    destruct (Scaffolder.falsy (scaffoldCache s !! f)) eqn:Hf.
    + pose proof (reached_miss _ _ Hs Hf) as Hf0.
      apply (kit_read (sf f)); [done|by apply Hok|].
      intros s' content Hs' Hr Hc. cbn.
      assert (W s' (set_cache f (Utf8.decode content) s')) as Hset.
      { apply step_set; [done| |done]. intros Hin c t _. unfold template_text.
        destruct (scaffoldCache s0 !! f) as [[|c' t']|]; try done; by rewrite (Hc Hin). }
      split; [done|].
      rewrite lookup_insert_eq.
      assert (W s0 (set_cache f (Utf8.decode content) s')) as Hs''.
      { by eapply within_trans. }
      apply (kit_generate (FromTemplate f out m)); [done..|].
      intros Hin. cbn. unfold template_text.
      destruct (scaffoldCache s0 !! f) as [[|c' t']|]; try done; by rewrite (Hc Hin).
    + cbn. destruct (scaffoldCache s !! f) as [[|c t]|] eqn:Hc; try done.
      apply (kit_generate (FromTemplate f out m)); [done..|].
      intros Hin. cbn. by eapply reached_cache_text.
  - unfold Scaffolder.copyGenerate. apply kit_read; [done|by apply Hok|].
    intros s' content Hs' _ Hc.
    apply (kit_generate (FromFile p out m)); [done..|].
    intros Hin. cbn. unfold file_text. by rewrite (Hc Hin).
Qed.

Lemma generateHtml_job (out smp : string) (h : option HtmlFile) :
  Scaffolder.generateHtml host plasmoManifest out smp h
  = job_run host plasmoManifest (html_job plasmoManifest out smp h).
Proof.
  unfold Scaffolder.generateHtml, html_job.
  by destruct (default (HtmlPath "") h) as [[|c p]|].
Qed.

Lemma kit_jobs (jobs : list Job) (base s : State) :
  W s0 s →
  Forall (job_ok host plasmoManifest s0 input goal may) jobs →
  wp host W (Promise_all_of (job_run host plasmoManifest) jobs)
    (λ _ s', Forall (λ j, job_post host plasmoManifest s0 input goal may j s') jobs) s.
Proof.
  intros Hs Hok.
  eapply wp_mono; [|apply (wp_Promise_all host W (W s0) s (job_run host plasmoManifest)
                             (λ j _, job_post host plasmoManifest s0 input goal may j) jobs)].
  - intros rs s' H. cbn in H. clear -H. induction H; by constructor.
  - apply reached_stable.
  - intros j _ _. apply job_post_stable.
  - intros j Hj s' _ _ Hs'. apply kit_job; [done|].
    rewrite Forall_forall in Hok. by apply Hok.
  - done.
  - done.
  - done.
Qed.

End KitFacts.

(** ** The methods that start several generations at once *)

Lemma findPageFiles_nodes (plasmoManifest : BaseFactory.t) (uiPageName : ExtensionUIPage)
    (s s' : State) :
  nodes s' = nodes s →
  Scaffolder.findPageFiles plasmoManifest uiPageName s'
  = Scaffolder.findPageFiles plasmoManifest uiPageName s.
Proof.
  intros H. unfold Scaffolder.findPageFiles.
  assert (fs.existsSync s' = fs.existsSync s) as ->; [|done].
  unfold fs.existsSync. by rewrite H.
Qed.

Lemma page_jobs_nodes (host : Host) (plasmoManifest : BaseFactory.t)
    (uiPageName : ExtensionUIPage) (s s' : State) :
  nodes s' = nodes s →
  page_jobs host plasmoManifest s' uiPageName = page_jobs host plasmoManifest s uiPageName.
Proof. intros H. unfold page_jobs. by rewrite (findPageFiles_nodes _ _ _ _ H). Qed.

Lemma hasIndex_nodes (plasmoManifest : BaseFactory.t) (uiPageName : ExtensionUIPage)
    (s s' : State) :
  nodes s' = nodes s → hasIndex plasmoManifest s' uiPageName = hasIndex plasmoManifest s uiPageName.
Proof.
  intros H. unfold hasIndex.
  assert (fs.existsSync s' = fs.existsSync s) as ->; [|done].
  unfold fs.existsSync. by rewrite H.
Qed.

Section KitMethods.
Context (host : Host) (plasmoManifest : BaseFactory.t) (s0 : State).
Context (input : string → Prop) (goal : string → Node → Prop) (may : Event → Prop).

Abbreviation W' := (within host plasmoManifest s0 input goal may).
Abbreviation staticDirectory :=
  (BaseFactory.staticDirectory (BaseFactory.commonPath plasmoManifest)).

Lemma made_post_stable (dir : string) (jobs : list Job) : stable W' (made_post host plasmoManifest s0 input goal may dir jobs).
Proof.
  intros s s' (H1 & H2 & H3 & H4) Hstep. split; [by eapply within_trans|].
  split; [by eapply happened_stable|]. split.
  - intros Hg. eapply done_stable; [|done]. auto.
  - eapply Forall_impl; [exact H4|]. intros j Hj.
    exact (job_post_stable host plasmoManifest s0 input goal may j s s' Hj Hstep).
Qed.

Lemma kit_dir_jobs {A} (dir : string) (jobs : list Job) (k : list () → Proc A)
    (Q : A → State → Prop) (s : State) :
  W' s0 s → may (EvMkdir dir) →
  Forall (job_ok host plasmoManifest s0 input goal may) jobs →
  (∀ rs s', made_post host plasmoManifest s0 input goal may dir jobs s' → wp host W' (k rs) Q s') →
  wp host W'
    (fs.ensureDir dir ≫= λ _, Promise_all_of (job_run host plasmoManifest) jobs ≫= k) Q s.
Proof.
  intros Hs Hm Hok HQ. apply kit_ensureDir; [done|done|].
  intros s1 H1 Hh Hd. apply wp_bind.
  eapply wp_mono; [|apply (wp_frame host W' _
      (λ s', W' s0 s' ∧ happened s0 (EvMkdir dir) s' ∧ (goal dir Dir → done goal s' dir)));
      [|apply (kit_jobs host plasmoManifest s0 input goal may jobs s1 s1); done|done]].
  - intros rs s' [Hj (Hw & Hh' & Hd')]. cbn in Hj. by apply HQ.
  - intros s2 s3 (Hw & Ha & Hb) Hstep. split; [by eapply within_trans|].
    split; [by eapply happened_stable|].
    intros Hg. eapply done_stable; [|done]. auto.
Qed.

Lemma kit_page (uiPageName : ExtensionUIPage) (s : State) :
  W' s0 s → may (EvMkdir staticDirectory) →
  Forall (job_ok host plasmoManifest s0 input goal may)
    (page_jobs host plasmoManifest s uiPageName) →
  wp host W' (Scaffolder.initUiPageTemplate host plasmoManifest uiPageName)
    (λ r s', r = hasIndex plasmoManifest s uiPageName ∧
             made_post host plasmoManifest s0 input goal may staticDirectory (page_jobs host plasmoManifest s uiPageName) s') s.
Proof.
  intros Hs Hm Hok. cbn [Scaffolder.initUiPageTemplate wp].
  unfold hasIndex, page_jobs, Scaffolder.findPageFiles in *.
  destruct (List.find (fs.existsSync s)
              (BaseFactory.HtmlList (Scaffolder.projectPath plasmoManifest) uiPageName))
    as [[|c p]|];
    refine (kit_dir_jobs staticDirectory _ (λ _, mret _) _ s Hs Hm Hok _);
    intros rs s' H; cbn; done.
Qed.


Abbreviation commonSource :=
  (resolve host
     (BaseFactory.staticTemplatePath (BaseFactory.templatePath plasmoManifest)) "common").
Abbreviation commonTarget := (resolve host staticDirectory "common").

Lemma kit_init (made : string → Prop) (s : State) :
  W' s0 s → may (EvCopy commonSource commonTarget) → may (EvMkdir staticDirectory) →
  (∀ s1 n', W' s0 s1 → copy_tree host commonSource commonTarget (nodes s1) = Some n' →
     respects input goal (nodes s1) n' ∧
     ∀ q, made q → ∃ node, goal q node ∧ n' !! q = Some node) →
  (∀ u, u ∈ uiPages →
     Forall (job_ok host plasmoManifest s0 input goal may)
       (page_jobs host plasmoManifest s u)) →
  wp host W' (Scaffolder.init host plasmoManifest) (init_post host plasmoManifest s0 input goal may made s) s.
Proof.
  intros Hs Hc Hm Hcopy Hok.
  change (wp host W'
            (Par (Scaffolder.copyStaticCommon host plasmoManifest)
               (Promise_all_of (Scaffolder.initUiPageTemplate host plasmoManifest) uiPages)
               (λ a b, Ret (snd (a, b))))
            (init_post host plasmoManifest s0 input goal may made s) s).
  cbn [wp].
  exists (W' s0),
    (λ _ s', W' s0 s' ∧ happened s0 (EvCopy commonSource commonTarget) s'
             ∧ ∀ q, made q → done goal s' q),
    (λ rs s',
       Forall2 (λ u r, r = hasIndex plasmoManifest s u ∧
                       made_post host plasmoManifest s0 input goal may staticDirectory (page_jobs host plasmoManifest s u) s')
         uiPages rs).
  split; [done|]. split; [apply reached_stable|]. split.
  { apply (kit_copy host plasmoManifest s0 input goal may _ _ made); done. }
  split.
  { intros s1 N1 T1 H1.
    apply (wp_Promise_all host W' (W' s0) s
             (Scaffolder.initUiPageTemplate host plasmoManifest)
             (λ u r s', r = hasIndex plasmoManifest s u ∧
                        made_post host plasmoManifest s0 input goal may staticDirectory (page_jobs host plasmoManifest s u) s')
             uiPages); [apply reached_stable| | |done..].
    - intros u _ r s2 s3 [-> Hp] Hstep. split; [done|].
      by eapply made_post_stable.
    - intros u Hu s2 N2 T2 H2.
      rewrite <-(page_jobs_nodes host plasmoManifest u s s2 N2).
      rewrite <-(hasIndex_nodes plasmoManifest u s s2 N2).
      apply kit_page; [done|done|].
      rewrite (page_jobs_nodes host plasmoManifest u s s2 N2). by apply Hok. }
  split.
  { intros [] s1 s2 (H1 & H2 & H3) Hstep. split; [by eapply within_trans|].
    split; [by eapply happened_stable|]. intros q Hq. eapply done_stable; [|done]. auto. }
  split.
  { intros rs s1 s2 H Hstep. eapply Forall2_impl; [exact H|].
    intros u r [-> Hp]. split; [done|]. by eapply made_post_stable. }
  intros [] rs s' (H1 & H2 & H3) H. cbn.
  split; [|split; [done|split; [done|split; [done|]]]].
  - clear -H. induction H as [|u r us rs [-> _] _ IH]; [done|]. cbn. by rewrite IH.
  - clear -H. induction H as [|u r us rs [_ Hp] _ IH]; by constructor.
Qed.

End KitMethods.

(** ** Whatever a method does *)

Section AnyMethod.
Context (host : Host) (T : State → State → Prop).

(** A relation that every call of [ok] and every change of the cache
    respects is respected by every turn of a method that issues only calls
    of [ok]. *)
Lemma calls_wp (ok : ∀ B, Request B → Prop) :
  (∀ B (r : Request B) s b s', ok B r → perform host r s = Ok b s' → T s s') →
  (∀ fileName content s, T s (set_cache fileName content s)) →
  ∀ {A} (p : Proc A) s, calls ok p → wp host T p (λ _ _, True) s.
Proof.
  intros Hcall Hset A p.
  induction p as [A a|A e|A k IH|A f v p IH|A B r k IH|A p IH|A B C l IHl r IHr k IHk];
    intros s Hp; cbn in *.
  - done.
  - done.
  - by apply IH.
  - split; [apply Hset|by apply IH].
  - destruct Hp as [Hr Hk]. exists (λ _, True). split; [done|]. split; [done|].
    intros s1 b s2 _ Hperform. split; [by eapply Hcall|].
    exists (λ _, True). split; [done|]. split; [done|].
    intros s3 _. by apply IH.
  - exists (λ _, True). split; [done|]. split; [done|]. intros s' _. by apply IH.
  - destruct Hp as (Hl & Hr & Hk).
    exists (λ _, True), (λ _ _, True), (λ _ _, True).
    split; [done|]. split; [done|]. split; [by apply IHl|].
    split; [intros s' _ _ _; by apply IHr|].
    split; [done|]. split; [done|]. intros b c s' _ _. by apply IHk.
Qed.

Lemma calls_fulfils (ok : ∀ B, Request B → Prop) {A} (p : Proc A) (s : State) (a : A)
    (s' : State) :
  (∀ B (r : Request B) s b s', ok B r → perform host r s = Ok b s' → T s s') →
  (∀ fileName content s, T s (set_cache fileName content s)) →
  calls ok p → fulfils host p s a s' → rtc T s s'.
Proof.
  intros Hcall Hset Hp Hf.
  by destruct (wp_fulfils host T p _ s a s' (calls_wp ok Hcall Hset p s Hp) Hf).
Qed.

End AnyMethod.

(** ** The literal replacement *)

Section Literal.
Import Str JS.






Lemma finalScaffold_app (text : string) (m1 m2 : list (string * string)) :
  Scaffolder.finalScaffold text (m1 ++ m2)
  = Scaffolder.finalScaffold (Scaffolder.finalScaffold text m1) m2.
Proof. unfold Scaffolder.finalScaffold. by rewrite fold_left_app. Qed.



End Literal.

(** ** What a generation leaves *)

Section Generations.
Context (host : Host) (plasmoManifest : BaseFactory.t).

Lemma loaded_template_text (fileName : string) (s : State) (t : string)
    (pre : list Event) (cache : gmap string string) :
  loaded host plasmoManifest fileName s t pre cache →
  template_text host plasmoManifest s fileName = Some t.
Proof.
  unfold template_text. intros [c t' Hc|content Hf Hn].
  - by rewrite Hc.
  - rewrite Hn. by destruct (scaffoldCache s !! fileName) as [[|c t']|].
Qed.

Lemma wrote_content (s : State) (out content : string) (pre : list Event)
    (cache : gmap string string) (s' : State) :
  wrote host s out content pre cache s' →
  nodes s' !! out = Some (File content) ∧
  (∀ path, path ≠ out → nodes s' !! path = nodes s !! path) ∧
  news s s' = pre ++ [EvWrite out content] ∧
  scaffoldCache s' = cache.
Proof.
  intros [_ ->]. cbn. split; [by rewrite lookup_insert_eq|].
  split; [intros path Hp; by rewrite lookup_insert_ne|].
  split; [|done]. unfold news. cbn. by rewrite drop_app_length.
Qed.

(** The file an instantiation leaves is the text of the template, as the
    state before has it, with the replacements applied. *)
Lemma instantiated_content (fileName out : string) (replaceMap : list (string * string))
    (s s' : State) :
  instantiated host plasmoManifest fileName out replaceMap s s' →
  ∃ template,
    template_text host plasmoManifest s fileName = Some template ∧
    nodes s' !! out = Some (File (Scaffolder.finalScaffold template replaceMap)) ∧
    (∀ path, path ≠ out → nodes s' !! path = nodes s !! path) ∧
    writes_of (trace s')
    = writes_of (trace s) ++ [(out, Scaffolder.finalScaffold template replaceMap)] ∧
    scaffoldCache s' !! fileName = Some template.
Proof.
  intros (t & pre & cache & Hl & Hw). exists t.
  split; [by eapply loaded_template_text|].
  destruct (wrote_content _ _ _ _ _ _ Hw) as (H1 & H2 & _ & H4).
  split; [done|]. split; [done|]. split.
  - destruct Hw as [_ ->]. cbn. rewrite !writes_of_app. cbn.
    destruct Hl; cbn; by rewrite ?app_nil_r.
  - rewrite H4. destruct Hl as [c t' Hc|content Hf Hn]; [done|].
    by rewrite lookup_insert_eq.
Qed.


End Generations.

(** ** The copy of the example hosts *)

Section ExampleCopy.
Import Example.

Lemma sapp_inj (a x y : string) : a +:+ x = a +:+ y → x = y.
Proof.
  induction a as [|c a IH]; [done|]. rewrite !sapp_cons. intros [= H]. by apply IH.
Qed.

Lemma sprefix_app_l (a b p : string) :
  String.prefix (a +:+ b) p = true → String.prefix a p = true.
Proof.
  revert p. induction a as [|c a IH]; intros p H; [by destruct p|].
  destruct p as [|d p]; [done|]. rewrite sapp_cons in H. simpl in *.
  destruct (ascii_dec c d); [by apply IH|done].
Qed.

Lemma sdrop_all (s : string) : Str.drop (String.length s) s = "".
Proof. induction s as [|c s IH]; [done|]. by simpl. Qed.

Lemma below_split (sep : ascii) (src p : string) :
  below sep src p = true → p = src +:+ Str.drop (String.length src) p.
Proof.
  unfold below. intros [H|H]%orb_true_iff.
  - apply String.eqb_eq in H as ->. by rewrite sdrop_all, sapp_nil_r.
  - apply sprefix_app_l, sprefix_split in H as [r ->]. by rewrite sdrop_app.
Qed.

Lemma moved_inj (sep : ascii) (src dest p p' : string) :
  below sep src p = true → below sep src p' = true →
  moved src dest p = moved src dest p' → p = p'.
Proof.
  intros Hp Hp' H. apply sapp_inj in H.
  rewrite (below_split _ _ _ Hp), (below_split _ _ _ Hp'). by rewrite H.
Qed.

Lemma foldl_insert_notin (l : list (string * Node)) (base : gmap string Node) (k : string) :
  k ∉ l.*1 →
  foldl (λ acc u, <[u.1 := u.2]> acc) base l !! k = base !! k.
Proof.
  revert base. induction l as [|[k' v'] l IH]; intros base Hk; [done|].
  cbn in *. apply not_elem_of_cons in Hk as [Hne Hk].
  rewrite IH by done. by rewrite lookup_insert_ne.
Qed.

Lemma foldl_insert_in (l : list (string * Node)) (base : gmap string Node)
    (k : string) (v : Node) :
  NoDup l.*1 → (k, v) ∈ l →
  foldl (λ acc u, <[u.1 := u.2]> acc) base l !! k = Some v.
Proof.
  revert base. induction l as [|[k' v'] l IH]; intros base Hd Hk;
    [by apply elem_of_nil in Hk|].
  cbn in *. apply NoDup_cons in Hd as [Hk' Hd].
  apply elem_of_cons in Hk as [[= -> ->]|Hk].
  - rewrite foldl_insert_notin by done. by rewrite lookup_insert_eq.
  - by apply IH.
Qed.

Lemma copy_plan_elem (sep : ascii) (src dest : string) (n : gmap string Node)
    (q : string) (node : Node) :
  (q, node) ∈ copy_plan sep src dest n ↔
  ∃ p, below sep src p = true ∧ q = moved src dest p ∧ n !! p = Some node.
Proof.
  unfold copy_plan. rewrite list_elem_of_omap. split.
  - intros ([p node'] & Hin & H). cbn in H.
    destruct (below sep src p) eqn:Hb; [|done]. injection H as <- <-.
    exists p. by apply elem_of_map_to_list in Hin.
  - intros (p & Hb & -> & Hn). exists (p, node).
    split; [by apply elem_of_map_to_list|]. cbn. by rewrite Hb.
Qed.

Lemma copy_plan_NoDup (sep : ascii) (src dest : string) (n : gmap string Node) :
  NoDup (copy_plan sep src dest n).*1.
Proof.
  unfold copy_plan. pose proof (NoDup_fst_map_to_list n) as Hd.
  induction (map_to_list n) as [|[p node] l IH]; [constructor|].
  cbn in *. apply NoDup_cons in Hd as [Hp Hd].
  destruct (below sep src p) eqn:Hb; [|by apply IH].
  cbn. apply NoDup_cons. split; [|by apply IH].
  intros ([q node'] & Hq & Hin)%list_elem_of_fmap. cbn in Hq.
  apply list_elem_of_omap in Hin as ([p' node''] & Hin & H). cbn in H.
  destruct (below sep src p') eqn:Hb'; [|done]. injection H as Hq' Hnode.
  rewrite <-Hq' in Hq.
  apply Hp. apply (moved_inj sep src dest) in Hq; [|done..]. subst p'.
  by apply (list_elem_of_fmap_2 fst _ (p, node'')).
Qed.

(** The copy of the example hosts puts each file of the tree at its place
    below [dest] and makes, changes or removes no other file. *)
Lemma copy_tree_impl_copies (sep : ascii) (src dest : string) :
  ∀ n n', copy_tree_impl sep src dest n = Some n' →
    (∀ p content, below sep src p = true → n !! p = Some (File content) →
       n' !! moved src dest p = Some (File content)) ∧
    (∀ q content, (∀ p, below sep src p = true → moved src dest p ≠ q) →
       n !! q = Some (File content) ↔ n' !! q = Some (File content)).
Proof.
  intros n n'. unfold copy_tree_impl. destruct (n !! src); [|done].
  destruct (existsb (Disk.is_file n) (ancestors_impl sep dest)) eqn:Ha; [done|].
  cbn zeta.
  destruct (forallb (fits (Disk.with_dirs (ancestors_impl sep dest) n))
              (copy_plan sep src dest n)); [|done].
  intros [= <-]. split.
  - intros p content Hb Hn. apply foldl_insert_in; [apply copy_plan_NoDup|].
    apply copy_plan_elem. by exists p.
  - intros q content Hq. rewrite foldl_insert_notin.
    + symmetry. apply with_dirs_file. by apply no_file.
    + intros ([q' node] & Hq' & (p & Hb & -> & _)%copy_plan_elem)%list_elem_of_fmap.
      cbn in Hq'. by apply (Hq p).
Qed.

(** It removes nothing. *)
Lemma copy_tree_impl_keeps (sep : ascii) (src dest : string) (n n' : gmap string Node)
    (path : string) :
  copy_tree_impl sep src dest n = Some n' → is_Some (n !! path) → is_Some (n' !! path).
Proof.
  unfold copy_tree_impl. destruct (n !! src); [|done].
  destruct (existsb (Disk.is_file n) (ancestors_impl sep dest)) eqn:Ha; [done|].
  cbn zeta.
  destruct (forallb (fits (Disk.with_dirs (ancestors_impl sep dest) n))
              (copy_plan sep src dest n)); [|done].
  intros [= <-] Hs.
  assert (is_Some (Disk.with_dirs (ancestors_impl sep dest) n !! path)) as Hbase.
  { destruct Hs as [[c|] Hs].
    - exists (File c). apply with_dirs_file; [by apply no_file|done].
    - exists Dir. by apply with_dirs_dir. }
  clear Hs. revert Hbase. generalize (Disk.with_dirs (ancestors_impl sep dest) n).
  induction (copy_plan sep src dest n) as [|[k v] l IH]; intros base Hbase; [done|].
  cbn. apply IH. destruct (decide (k = path)) as [->|Hne].
  - rewrite lookup_insert_eq. by eexists.
  - by rewrite lookup_insert_ne.
Qed.

End ExampleCopy.

(** ** The content-script mount *)




(** ** The cache *)

Lemma writable_after_write (host : Host) (n : gmap string Node) (out content path : string) :
  writable host n out → writable host n path →
  writable host (<[out := File content]> n) path.
Proof.
  intros [_ Hout] [Ha Hp]. split.
  - intros dir Hd. rewrite lookup_insert_ne; [by apply Ha|].
    intros <-. by rewrite (Ha _ Hd) in Hout.
  - destruct (decide (out = path)) as [->|Hne].
    + by rewrite lookup_insert_eq.
    + by rewrite lookup_insert_ne.
Qed.

(** C2 fails for a template that is empty: two loads of the template
    [fileName], made one after the other where both can write their
    output, are both fulfilled, the first stores the empty text in the
    cache, and the template file is read by the first and again by the
    second. *)
Theorem cachedGenerate_empty_template_read_twice :
  ∀ (host : Host) (plasmoManifest : BaseFactory.t) (fileName out1 out2 : string)
    (map1 map2 : list (string * string)) (s : State),
    Scaffolder.falsy (scaffoldCache s !! fileName) = true →
    nodes s !! scaffoldFile host plasmoManifest fileName = Some (File "") →
    out1 ≠ scaffoldFile host plasmoManifest fileName →
    writable host (nodes s) out1 →
    writable host (nodes s) out2 →
    ∃ s1 s2,
      fulfils host (Scaffolder.cachedGenerate host plasmoManifest fileName out1 map1) s () s1 ∧
      scaffoldCache s1 !! fileName = Some "" ∧
      reads_of (trace s1)
      = reads_of (trace s) ++ [scaffoldFile host plasmoManifest fileName] ∧
      fulfils host (Scaffolder.cachedGenerate host plasmoManifest fileName out2 map2) s1 () s2 ∧
      reads_of (trace s2)
      = reads_of (trace s) ++
        [scaffoldFile host plasmoManifest fileName;
         scaffoldFile host plasmoManifest fileName].
Proof.
  intros host plasmoManifest fileName out1 out2 map1 map2 s Hf Hn Hne Hw1 Hw2.
  set (sf := scaffoldFile host plasmoManifest fileName) in *.
  set (s1 := mkState (<[fileName := ""]> (scaffoldCache s))
               (<[out1 := File (Scaffolder.finalScaffold "" map1)]> (nodes s))
               (trace s ++ [EvRead sf] ++ [EvWrite out1 (Scaffolder.finalScaffold "" map1)])).
  set (s2 := mkState (<[fileName := ""]> (scaffoldCache s1))
               (<[out2 := File (Scaffolder.finalScaffold "" map2)]> (nodes s1))
               (trace s1 ++ [EvRead sf] ++ [EvWrite out2 (Scaffolder.finalScaffold "" map2)])).
  exists s1, s2.
  assert (scaffoldCache s1 !! fileName = Some "") as Hc1.
  { unfold s1. cbn. by rewrite lookup_insert_eq. }
  split.
  { apply fulfils_cachedGenerate. exists "", [EvRead sf], (<[fileName := ""]> (scaffoldCache s)).
    split; [|done]. by apply (loaded_miss host plasmoManifest fileName s ""). }
  split; [done|]. split.
  { unfold s1. cbn. rewrite !reads_of_app. by cbn. }
  split.
  { apply fulfils_cachedGenerate. exists "", [EvRead sf], (<[fileName := ""]> (scaffoldCache s1)).
    split.
    - apply (loaded_miss host plasmoManifest fileName s1 ""); [by rewrite Hc1|].
      unfold s1. cbn. by rewrite lookup_insert_ne.
    - split; [|done]. unfold s1. cbn. by apply writable_after_write. }
  unfold s2, s1. cbn. rewrite !reads_of_app. cbn. by rewrite <-app_assoc.
Qed.

Lemma cachedGenerate_empty_template_read_twice_witness :
  ∃ s1 s2,
    fulfils Example.posix
      (Scaffolder.cachedGenerate Example.posix Example.demo "index.html"
         "/proj/.plasmo/popup.html"
         (Scaffolder.templateReplace Example.demo "./static/popup.tsx"))
      (Example.fresh Example.empty_index_html) () s1 ∧
    scaffoldCache s1 !! "index.html" = Some "" ∧
    reads_of (trace s1) = ["/tpl/static/react/index.html"] ∧
    fulfils Example.posix
      (Scaffolder.cachedGenerate Example.posix Example.demo "index.html"
         "/proj/.plasmo/options.html"
         (Scaffolder.templateReplace Example.demo "./static/options.tsx"))
      s1 () s2 ∧
    reads_of (trace s2)
    = ["/tpl/static/react/index.html"; "/tpl/static/react/index.html"].
Proof.
  apply (cachedGenerate_empty_template_read_twice Example.posix Example.demo "index.html"
           "/proj/.plasmo/popup.html" "/proj/.plasmo/options.html"
           (Scaffolder.templateReplace Example.demo "./static/popup.tsx")
           (Scaffolder.templateReplace Example.demo "./static/options.tsx")
           (Example.fresh Example.empty_index_html)).
  - reflexivity.
  - reflexivity.
  - discriminate.
  - split; [|by vm_compute].
    intros dir Hd. vm_compute in Hd.
    repeat (apply elem_of_cons in Hd as [->|Hd]; [reflexivity|]).
    by apply elem_of_nil in Hd.
  - split; [|by vm_compute].
    intros dir Hd. vm_compute in Hd.
    repeat (apply elem_of_cons in Hd as [->|Hd]; [reflexivity|]).
    by apply elem_of_nil in Hd.
Defined.

(** ** The substitution *)




(** ** HTML generation *)

(** A file can be written at a path of an example: the directories the
    path lies in are looked up one by one. *)
Ltac writable_here :=
  split;
  [ let dir := fresh "dir" in
    let Hd := fresh "Hd" in
    intros dir Hd; vm_compute in Hd;
    repeat (apply elem_of_cons in Hd as [->|Hd]; [reflexivity|]);
    by apply elem_of_nil in Hd
  | by vm_compute ].

Section UserHtml.
Import Str JS.
Context (host : Host) (plasmoManifest : BaseFactory.t).

Abbreviation generateHtml := (Scaffolder.generateHtml host plasmoManifest).
Abbreviation templateReplace := (Scaffolder.templateReplace plasmoManifest).

Lemma dollar_free_app (a b : string) :
  dollar_free (a +:+ b) = dollar_free a && dollar_free b.
Proof.
  induction a as [|c a IH]; [done|]. rewrite sapp_cons. simpl.
  by rewrite IH, andb_assoc.
Qed.

Lemma bodyInjection_mountPoint (scriptMountPath : string) :
  Scaffolder.bodyInjection scriptMountPath = mountPoint scriptMountPath +:+ "</body>".
Proof. unfold Scaffolder.bodyInjection, mountPoint. by rewrite !sapp_assoc. Qed.

Lemma bodyInjection_dollar_free (scriptMountPath : string) :
  dollar_free scriptMountPath = true →
  dollar_free (Scaffolder.bodyInjection scriptMountPath) = true.
Proof.
  intros H. unfold Scaffolder.bodyInjection. rewrite !dollar_free_app, H. done.
Qed.

(** What [generateHtml] does with a file of the user: one read, one write
    of the decoded text after the three replacements, in their order. *)
Lemma generateHtml_user_file (outputPath scriptMountPath : string)
    (c : ascii) (p : string) (s s' : State) (u : ()) :
  fulfils host (generateHtml outputPath scriptMountPath (Some (HtmlPath (String c p))))
    s u s' ↔
  ∃ src,
    nodes s !! String c p = Some (File src) ∧
    wrote host s outputPath
      (replaceAll (Scaffolder.finalScaffold (Utf8.decode src)
                     (templateReplace scriptMountPath))
         "</body>" (Scaffolder.bodyInjection scriptMountPath))
      [EvRead (String c p)] (scaffoldCache s) s'.
Proof.
  change (generateHtml outputPath scriptMountPath (Some (HtmlPath (String c p))))
    with (Scaffolder.copyGenerate (String c p) outputPath
            (templateReplace scriptMountPath
               ++ [("</body>", Scaffolder.bodyInjection scriptMountPath)])).
  rewrite fulfils_copyGenerate.
  split; intros (src & Hn & Hw); exists src; (split; [done|]).
  - by rewrite finalScaffold_app in Hw.
  - by rewrite finalScaffold_app.
Qed.

(** What it does without one. *)
Lemma generateHtml_builtin (outputPath scriptMountPath : string)
    (htmlFile : option HtmlFile) (s s' : State) (u : ()) :
  htmlFile ∈ [None; Some (HtmlPath ""); Some HtmlFalse] →
  fulfils host (generateHtml outputPath scriptMountPath htmlFile) s u s' ↔
  instantiated host plasmoManifest "index.html" outputPath
    (templateReplace scriptMountPath) s s'.
Proof.
  intros Hh.
  repeat (apply elem_of_cons in Hh as [->|Hh];
          [apply (fulfils_cachedGenerate host plasmoManifest "index.html")|]).
  by apply elem_of_nil in Hh.
Qed.

(** C6, amended: when the text of the user's file, read as UTF-8, holds no
    closing-body marker after the title and script replacements, and the
    output file can be written, generation is fulfilled, nothing is
    injected and the output is that text; the cache and every other path
    stay as they were. *)
Theorem generateHtml_without_marker :
  ∀ (outputPath scriptMountPath : string) (c : ascii) (p src : string) (s : State),
    nodes s !! String c p = Some (File src) →
    writable host (nodes s) outputPath →
    includes "</body>"
      (Scaffolder.finalScaffold (Utf8.decode src) (templateReplace scriptMountPath))
    = false →
    let html :=
      Scaffolder.finalScaffold (Utf8.decode src) (templateReplace scriptMountPath) in
    let after :=
      mkState (scaffoldCache s) (<[outputPath := File html]> (nodes s))
        (trace s ++ [EvRead (String c p); EvWrite outputPath html]) in
    fulfils host (generateHtml outputPath scriptMountPath (Some (HtmlPath (String c p))))
      s () after ∧
    ∀ s', fulfils host
            (generateHtml outputPath scriptMountPath (Some (HtmlPath (String c p))))
            s () s' → s' = after.
Proof.
  intros out smp c p src s Hn Hw Habs html after. split.
  - apply generateHtml_user_file. exists src. split; [done|]. split; [done|].
    by rewrite (replaceAll_absent _ _ _ Habs).
  - intros s' (src' & Hn' & _ & ->)%generateHtml_user_file.
    assert (src' = src) as -> by congruence.
    by rewrite (replaceAll_absent _ _ _ Habs).
Qed.

(** C5, amended: when the text of the user's file, read as UTF-8, holds
    the closing-body marker exactly once after the title and script
    replacements, [scriptMountPath] has no ["$"] and the output file can
    be written, generation is fulfilled and the output is that text with
    the root-mount element and the module script tag for
    [scriptMountPath] put immediately before the marker, and nothing else
    changed. *)
Theorem generateHtml_injects_before_marker :
  ∀ (outputPath scriptMountPath : string) (c : ascii) (p src pre post : string)
    (s : State),
    nodes s !! String c p = Some (File src) →
    writable host (nodes s) outputPath →
    Scaffolder.finalScaffold (Utf8.decode src) (templateReplace scriptMountPath)
    = pre +:+ "</body>" +:+ post →
    occurrences "</body>" (pre +:+ "</body>" +:+ post) = 1 →
    dollar_free scriptMountPath = true →
    let html := pre +:+ mountPoint scriptMountPath +:+ "</body>" +:+ post in
    let after :=
      mkState (scaffoldCache s) (<[outputPath := File html]> (nodes s))
        (trace s ++ [EvRead (String c p); EvWrite outputPath html]) in
    fulfils host (generateHtml outputPath scriptMountPath (Some (HtmlPath (String c p))))
      s () after ∧
    ∀ s', fulfils host
            (generateHtml outputPath scriptMountPath (Some (HtmlPath (String c p))))
            s () s' → s' = after.
Proof.
  intros out smp c p src pre post s Hn Hw Hsplit Hone Hfree html after.
  assert (replaceAll (Scaffolder.finalScaffold (Utf8.decode src) (templateReplace smp))
            "</body>" (Scaffolder.bodyInjection smp) = html) as Hhtml.
  { rewrite Hsplit, replaceAll_once by done.
    rewrite GetSubstitution_dollar_free by by apply bodyInjection_dollar_free.
    by rewrite bodyInjection_mountPoint, sapp_assoc. }
  split.
  - apply generateHtml_user_file. exists src. split; [done|]. split; [done|].
    by rewrite Hhtml.
  - intros s' (src' & Hn' & _ & ->)%generateHtml_user_file.
    assert (src' = src) as -> by congruence. by rewrite Hhtml.
Qed.

(** C10: a call of [generateHtml] with [htmlFile] left out, empty or
    [false] is, in every state, fulfilled exactly as the instantiation of
    the built-in [index.html] with the title and the script path is: with
    the cached text of the template or, on a miss, the decoded template
    file, which is then cached; what it writes is that text with the two
    tokens replaced, and a file of the user is neither read nor written.
    Only a path that is not empty makes it read that file and inject the
    mount point.  [createPageHtml] hands the value on. *)
Theorem generateHtml_falsy_htmlFile :
  ∀ (outputPath scriptMountPath : string) (s s' : State),
    (∀ htmlFile,
       htmlFile ∈ [None; Some (HtmlPath ""); Some HtmlFalse] →
       (fulfils host (generateHtml outputPath scriptMountPath htmlFile) s () s' ↔
        instantiated host plasmoManifest "index.html" outputPath
          (templateReplace scriptMountPath) s s') ∧
       (fulfils host (generateHtml outputPath scriptMountPath htmlFile) s () s' →
        ∃ template,
          template_text host plasmoManifest s "index.html" = Some template ∧
          nodes s' !! outputPath
          = Some (File (Scaffolder.finalScaffold template
                          (templateReplace scriptMountPath))) ∧
          (∀ path, path ≠ outputPath → nodes s' !! path = nodes s !! path) ∧
          (∀ path, path ∈ reads_of (news s s') →
                   path = scaffoldFile host plasmoManifest "index.html"))) ∧
    (∀ c p,
       fulfils host (generateHtml outputPath scriptMountPath (Some (HtmlPath (String c p))))
         s () s' ↔
       ∃ src,
         nodes s !! String c p = Some (File src) ∧
         wrote host s outputPath
           (Scaffolder.finalScaffold (Utf8.decode src)
              (templateReplace scriptMountPath
                 ++ [("</body>", Scaffolder.bodyInjection scriptMountPath)]))
           [EvRead (String c p)] (scaffoldCache s) s') ∧
    (∀ uiPageName htmlFile,
       Scaffolder.createPageHtml host plasmoManifest uiPageName htmlFile
       = generateHtml
           (resolve host
              (BaseFactory.dotPlasmoDirectory (BaseFactory.commonPath plasmoManifest))
              (pageName uiPageName +:+ ".html"))
           ("./static/" +:+ pageName uiPageName +:+ BaseFactory.mountExt plasmoManifest)
           (Some (default (HtmlPath "") htmlFile))).
Proof.
  intros out smp s s'. split; [|split].
  - intros h Hh. split; [by apply generateHtml_builtin|].
    intros Hi%generateHtml_builtin; [|done].
    destruct (instantiated_content _ _ _ _ _ _ _ Hi) as (t & Ht & Hn & Hframe & _).
    exists t. split; [done|]. split; [done|]. split; [done|].
    destruct Hi as (t' & pre & cache & Hl & Hw).
    destruct (wrote_content _ _ _ _ _ _ _ Hw) as (_ & _ & -> & _).
    intros path. rewrite reads_of_app. cbn. rewrite app_nil_r.
    destruct Hl; cbn; [by intros ?%elem_of_nil|].
    by intros ->%list_elem_of_singleton.
  - intros c p. rewrite generateHtml_user_file. by setoid_rewrite finalScaffold_app.
  - done.
Qed.

End UserHtml.

Lemma generateHtml_without_marker_witness :
  ∃ s',
    fulfils Example.posix
      (Scaffolder.generateHtml Example.posix Example.demo "/proj/.plasmo/popup.html"
         "./static/popup.tsx" (Some (HtmlPath "/proj/popup.html")))
      (Example.fresh (Example.with_popup_html "<html><h1>__plasmo_static_index_title__</h1></html>"))
      () s'
    ∧ nodes s' !! "/proj/.plasmo/popup.html" = Some (File "<html><h1>demo</h1></html>").
Proof.
  eexists. split.
  - apply (generateHtml_without_marker Example.posix Example.demo
             "/proj/.plasmo/popup.html" "./static/popup.tsx" "/" "proj/popup.html"
             "<html><h1>__plasmo_static_index_title__</h1></html>").
    + reflexivity.
    + writable_here.
    + by vm_compute.
  - vm_compute. reflexivity.
Defined.

Lemma generateHtml_injects_before_marker_witness :
  ∃ s',
    fulfils Example.posix
      (Scaffolder.generateHtml Example.posix Example.demo "/proj/.plasmo/popup.html"
         "./static/popup.tsx" (Some (HtmlPath "/proj/popup.html")))
      (Example.fresh (Example.with_popup_html "<html><body><h1>__plasmo_static_index_title__</h1></body></html>"))
      () s'
    ∧ nodes s' !! "/proj/.plasmo/popup.html"
      = Some (File ("<html><body><h1>demo</h1>" +:+ mountPoint "./static/popup.tsx"
                    +:+ "</body></html>")).
Proof.
  eexists. split.
  - apply (generateHtml_injects_before_marker Example.posix Example.demo
             "/proj/.plasmo/popup.html" "./static/popup.tsx" "/" "proj/popup.html"
             "<html><body><h1>__plasmo_static_index_title__</h1></body></html>"
             "<html><body><h1>demo</h1>" "</html>").
    + reflexivity.
    + writable_here.
    + by vm_compute.
    + by vm_compute.
    + by vm_compute.
  - vm_compute. reflexivity.
Defined.

(** C6 as stated fails: the file holds no closing-body marker, but the
    project name put in place of the title token brings one in, and the
    mount point is injected in front of it. *)
Lemma generateHtml_without_marker_counterexample :
  let manifest := Example.demo_named "</body>" in
  let src := "<html><head><title>__plasmo_static_index_title__</title></head></html>" in
  let smp := "./static/popup.tsx" in
  Str.includes "</body>" src = false
  ∧ ∃ s' html,
      fulfils Example.posix
        (Scaffolder.generateHtml Example.posix manifest "/proj/.plasmo/popup.html" smp
           (Some (HtmlPath "/proj/popup.html")))
        (Example.fresh (Example.with_popup_html src)) () s'
      ∧ nodes s' !! "/proj/.plasmo/popup.html" = Some (File html)
      ∧ html = "<html><head><title>" +:+ mountPoint smp +:+ "</body></title></head></html>"
      ∧ html ≠ Scaffolder.finalScaffold src (Scaffolder.templateReplace manifest smp).
Proof.
  intros manifest src smp. split; [reflexivity|].
  eexists _, _. split; [exists (Example.leftmost 4); vm_compute; reflexivity|].
  split; [vm_compute; reflexivity|]. split; [vm_compute; reflexivity|].
  vm_compute. discriminate.
Qed.

(** C5 as stated fails twice over.  The file holds the closing-body
    marker once and the mount point is put in front of it, but the title
    token in front of the marker is not kept as it was; and a byte that is
    not UTF-8 is not kept either: the file is read as UTF-8, so the byte
    255 comes out as U+FFFD. *)
Lemma generateHtml_injects_before_marker_counterexample :
  let pre := "<html><head><title>__plasmo_static_index_title__</title></head><body>" in
  let post := "</html>" in
  let src := pre +:+ "</body>" +:+ post in
  let latin := "<body>" +:+ String "255" "" +:+ "</body>" in
  let smp := "./static/popup.tsx" in
  Str.occurrences "</body>" src = 1
  ∧ (∃ s' html,
       fulfils Example.posix
         (Scaffolder.generateHtml Example.posix Example.demo "/proj/.plasmo/popup.html" smp
            (Some (HtmlPath "/proj/popup.html")))
         (Example.fresh (Example.with_popup_html src)) () s'
       ∧ nodes s' !! "/proj/.plasmo/popup.html" = Some (File html)
       ∧ html = "<html><head><title>demo</title></head><body>" +:+ mountPoint smp
                +:+ "</body>" +:+ post
       ∧ html ≠ pre +:+ mountPoint smp +:+ "</body>" +:+ post)
  ∧ Str.occurrences "</body>" latin = 1
  ∧ (∃ s' html,
       fulfils Example.posix
         (Scaffolder.generateHtml Example.posix Example.demo "/proj/.plasmo/popup.html" smp
            (Some (HtmlPath "/proj/popup.html")))
         (Example.fresh (Example.with_popup_html latin)) () s'
       ∧ nodes s' !! "/proj/.plasmo/popup.html" = Some (File html)
       ∧ html = "<body>" +:+ Utf8.replacement +:+ mountPoint smp +:+ "</body>"
       ∧ html ≠ "<body>" +:+ String "255" "" +:+ mountPoint smp +:+ "</body>").
Proof.
  intros pre post src latin smp. split; [reflexivity|]. split.
  { eexists _, _. split; [exists (Example.leftmost 4); vm_compute; reflexivity|].
    split; [vm_compute; reflexivity|]. split; [vm_compute; reflexivity|].
    vm_compute. discriminate. }
  split; [reflexivity|].
  eexists _, _. split; [exists (Example.leftmost 4); vm_compute; reflexivity|].
  split; [vm_compute; reflexivity|]. split; [vm_compute; reflexivity|].
  vm_compute. discriminate.
Qed.

(** ** The first run *)

Lemma within_news (host : Host) (plasmoManifest : BaseFactory.t) (s0 : State)
    (input : string → Prop) (goal : string → Node → Prop) (may : Event → Prop)
    (s s' : State) :
  within host plasmoManifest s0 input goal may s s' → Forall may (news s s').
Proof.
  intros ((events & Ht & Hm) & _). unfold news. by rewrite Ht, drop_app_length.
Qed.

Lemma job_ok_free (host : Host) (plasmoManifest : BaseFactory.t) (s0 : State)
    (may : Event → Prop) (j : Job) :
  may (EvRead (job_source host plasmoManifest j)) →
  (∀ t, may (EvWrite (job_out j) t)) →
  job_ok host plasmoManifest s0 (λ _, False) (λ _ _, False) may j.
Proof. intros Hr Hw. split; [done|]. split; [done|]. split; [tauto|done]. Qed.

Lemma page_jobs_out (host : Host) (plasmoManifest : BaseFactory.t) (s : State)
    (uiPageName : ExtensionUIPage) :
  job_out <$> page_jobs host plasmoManifest s uiPageName
  = pageOutputs host plasmoManifest uiPageName.
Proof.
  unfold page_jobs, pageOutputs, html_job.
  by destruct (Scaffolder.findPageFiles plasmoManifest uiPageName s) as [i [[|c p]|]].
Qed.


Lemma elem_of_pageOutputs (host : Host) (plasmoManifest : BaseFactory.t)
    (uiPageName : ExtensionUIPage) (path : string) :
  path ∈ pageOutputs host plasmoManifest uiPageName →
  path ∈ concat (pageOutputs host plasmoManifest <$> uiPages).
Proof.
  intros H. apply list_elem_of_In, in_concat.
  exists (pageOutputs host plasmoManifest uiPageName). split; [|by apply list_elem_of_In].
  apply list_elem_of_In, list_elem_of_fmap_2.
  unfold uiPages. destruct uiPageName; repeat constructor.
Qed.

Lemma elem_of_page_jobs_out (host : Host) (plasmoManifest : BaseFactory.t) (s : State)
    (uiPageName : ExtensionUIPage) (j : Job) :
  j ∈ page_jobs host plasmoManifest s uiPageName →
  job_out j ∈ pageOutputs host plasmoManifest uiPageName.
Proof.
  intros H. rewrite <-(page_jobs_out host plasmoManifest s). by apply list_elem_of_fmap_2.
Qed.

(** C1, amended: a run of [init] that is fulfilled has carried out the
    copy of the static assets, has made the static directory and has
    written the mount script and the HTML document of each of the four
    pages, and nothing else has been copied, made or written; it returns,
    for the pages in the order popup, options, newtab, devtools, whether a
    candidate of the page's index list existed when it was called. *)
Theorem init_results_in_call_order :
  ∀ (host : Host) (plasmoManifest : BaseFactory.t) (s s' : State)
    (uiPagesResult : list bool),
    fulfils host (Scaffolder.init host plasmoManifest) s uiPagesResult s' →
    let src :=
      resolve host
        (BaseFactory.staticTemplatePath (BaseFactory.templatePath plasmoManifest))
        "common" in
    let dest :=
      resolve host (BaseFactory.staticDirectory (BaseFactory.commonPath plasmoManifest))
        "common" in
    let outputs := concat (pageOutputs host plasmoManifest <$> [popup; options; newtab; devtools]) in
    uiPagesResult = hasIndex plasmoManifest s <$> [popup; options; newtab; devtools]
    ∧ EvCopy src dest ∈ news s s'
    ∧ EvMkdir (BaseFactory.staticDirectory (BaseFactory.commonPath plasmoManifest))
      ∈ news s s'
    ∧ (∀ path, path ∈ outputs → ∃ content, EvWrite path content ∈ news s s')
    ∧ Forall (init_may host plasmoManifest) (news s s').
Proof.
  intros host plasmoManifest s s' r Hf src dest outputs.
  assert (wp host (within host plasmoManifest s (λ _, False) (λ _ _, False)
                     (init_may host plasmoManifest))
            (Scaffolder.init host plasmoManifest)
            (init_post host plasmoManifest s (λ _, False) (λ _ _, False)
               (init_may host plasmoManifest) (λ _, False) s) s) as Hwp.
  { apply kit_init.
    - apply within_refl.
    - done.
    - done.
    - intros s1 n' _ _. split; [|done]. split; [done|]. by intros path node [].
    - intros u Hu. apply Forall_forall. intros j Hj. apply job_ok_free; [done|].
      intros t. cbn. apply (elem_of_pageOutputs host plasmoManifest u).
      by eapply elem_of_page_jobs_out. }
  destruct (wp_fulfils _ _ _ _ _ _ _ Hwp Hf) as [(Hr & Hw & Hc & _ & Hp) _].
  split; [done|]. split; [done|]. split.
  { rewrite Forall_forall in Hp. destruct (Hp popup) as (_ & Hm & _); [|done].
    apply list_elem_of_here. }
  split; [|by eapply within_news].
  intros path Hpath. apply list_elem_of_In, in_concat in Hpath as (outs & Ho & Hpath).
  apply list_elem_of_In, list_elem_of_fmap in Ho as (u & -> & Hu).
  apply list_elem_of_In in Hpath.
  rewrite Forall_forall in Hp. destruct (Hp u Hu) as (_ & _ & _ & Hjobs).
  rewrite <-(page_jobs_out host plasmoManifest s) in Hpath.
  apply list_elem_of_fmap in Hpath as (j & -> & Hj).
  rewrite Forall_forall in Hjobs. destruct (Hjobs j Hj) as (_ & t & _ & Hwrite & _).
  by eexists.
Qed.

Lemma init_results_in_call_order_witness :
  ∃ s',
    fulfils Example.posix (Scaffolder.init Example.posix Example.demo)
      Example.before_init [false; false; true; false] s'
    ∧ EvCopy "/tpl/static/common" "/proj/.plasmo/static/common"
      ∈ news Example.before_init s'
    ∧ ∃ content, EvWrite "/proj/.plasmo/static/devtools.tsx" content
                 ∈ news Example.before_init s'.
Proof.
  assert (∃ s',
            run Example.posix (Example.rightmost 8)
              (Scaffolder.init Example.posix Example.demo) Example.before_init
            = (Ret [false; false; true; false], s')) as [s' Hrun].
  { eexists. vm_compute. reflexivity. }
  exists s'.
  assert (fulfils Example.posix (Scaffolder.init Example.posix Example.demo)
            Example.before_init [false; false; true; false] s') as Hf.
  { by exists (Example.rightmost 8). }
  split; [exact Hf|].
  destruct (init_results_in_call_order _ _ _ _ _ Hf) as (_ & Hc & _ & Hw & _).
  split; [exact Hc|]. apply Hw. cbn. repeat constructor.
Defined.

(** C1 as stated fails: with an index module for the new-tab page only,
    the third result is the true one, not the fourth. *)
Lemma init_results_order_counterexample :
  ∃ s',
    fulfils Example.posix (Scaffolder.init Example.posix Example.demo)
      (Example.fresh Example.with_newtab_index) [false; false; true; false] s'
    ∧ [false; false; true; false]
      ≠ hasIndex Example.demo (Example.fresh Example.with_newtab_index)
          <$> [popup; options; devtools; newtab].
Proof.
  eexists. split; [exists (Example.leftmost 60); vm_compute; reflexivity|].
  by vm_compute.
Qed.

(** ** The page templates *)

Lemma find_first {A} (f : A → bool) (l : list A) :
  match List.find f l with
  | Some x =>
      ∃ earlier later,
        l = earlier ++ x :: later ∧ f x = true ∧ Forall (λ y, f y = false) earlier
  | None => Forall (λ y, f y = false) l
  end.
Proof.
  induction l as [|a l IH]; cbn; [constructor|].
  destruct (f a) eqn:Ha.
  - exists [], l. by repeat split.
  - destruct (List.find f l) as [x|].
    + destruct IH as (earlier & later & -> & Hx & He).
      exists (a :: earlier), later. split; [done|]. split; [done|]. by constructor.
    + by constructor.
Qed.


(** A path of an example is not in a list of paths. *)
Ltac not_listed :=
  let H := fresh "H" in
  intros H; vm_compute in H;
  repeat (apply elem_of_cons in H as [H|H]; [discriminate H|]);
  by apply elem_of_nil in H.


(** ** What the generations of a run leave *)

Lemma NoDup_fmap_eq {A B} (f : A → B) (l : list A) (x y : A) :
  NoDup (f <$> l) → x ∈ l → y ∈ l → f x = f y → x = y.
Proof.
  induction l as [|a l IH]; intros Hn Hx Hy Hf; [by apply elem_of_nil in Hx|].
  cbn in Hn. apply NoDup_cons in Hn as [Ha Hn].
  apply elem_of_cons in Hx as [->|Hx]; apply elem_of_cons in Hy as [->|Hy].
  - done.
  - exfalso. apply Ha. rewrite Hf. by apply list_elem_of_fmap_2.
  - exfalso. apply Ha. rewrite <-Hf. by apply list_elem_of_fmap_2.
  - by apply IH.
Qed.

Section ResultsFacts.
Context (host : Host) (plasmoManifest : BaseFactory.t) (s0 : State) (jobs : list Job).
Context (copied : string → Prop) (copy : string → Node → Prop) (may : Event → Prop).

Abbreviation input := (others jobs copied).
Abbreviation goal := (results host plasmoManifest s0 jobs copy).

Lemma jobs_ok (j : Job) :
  sources_apart host plasmoManifest jobs copied →
  (∀ path, may (EvRead path)) →
  (∀ path content, path ∈ job_out <$> jobs → may (EvWrite path content)) →
  j ∈ jobs →
  job_ok host plasmoManifest s0 input goal may j.
Proof.
  intros Hs Hr Hw Hj. split; [done|].
  assert (job_out j ∈ job_out <$> jobs) as Hout by by apply list_elem_of_fmap_2.
  split; [intros t; by apply Hw|]. split; [by intros [Hn _]|].
  intros t content Ht _. left. exists j. split; [done|]. split; [done|].
  exists (Scaffolder.finalScaffold t (job_map j)). split; [|done].
  unfold job_result. by rewrite (Ht (Hs j Hj)).
Qed.

Lemma jobs_done (j : Job) (s : State) :
  sources_apart host plasmoManifest jobs copied →
  NoDup (job_out <$> jobs) →
  (∀ j node, j ∈ jobs → ¬ copy (job_out j) node) →
  j ∈ jobs →
  job_post host plasmoManifest s0 input goal may j s →
  ∃ text,
    job_text host plasmoManifest s0 j = Some text ∧
    nodes s !! job_out j = Some (File (Scaffolder.finalScaffold text (job_map j))).
Proof.
  intros Hs Hn Hc Hj (_ & t & Ht & _ & Hd). specialize (Ht (Hs j Hj)).
  exists t. split; [done|].
  destruct Hd as (node & [(j' & Hj' & Hout & c & Hres & ->)|Hcopy] & Hnode).
  { left. exists j. split; [done|]. split; [done|].
    exists (Scaffolder.finalScaffold t (job_map j)). split; [|done].
    unfold job_result. by rewrite Ht. }
  - assert (j' = j) as -> by by eapply NoDup_fmap_eq.
    unfold job_result in Hres. rewrite Ht in Hres. cbn in Hres. by injection Hres as <-.
  - by destruct (Hc j node Hj).
Qed.

End ResultsFacts.

(** ** The page mounts *)


(** The paths of an example differ from one another. *)
Ltac all_different :=
  vm_compute;
  repeat (apply NoDup_cons; split;
          [ let H := fresh "H" in
            intros H;
            repeat (apply elem_of_cons in H as [H|H]; [discriminate H|]);
            by apply elem_of_nil in H
          | ]);
  apply NoDup_nil_2.



(** ** What a run of [init] leaves *)

Lemma elem_of_init_jobs (host : Host) (plasmoManifest : BaseFactory.t) (s : State) (j : Job) :
  j ∈ init_jobs host plasmoManifest s ↔
  ∃ u, u ∈ uiPages ∧ j ∈ page_jobs host plasmoManifest s u.
Proof.
  unfold init_jobs. rewrite list_elem_of_In, in_concat. split.
  - intros (jobs & Hjobs & Hj). apply list_elem_of_In, list_elem_of_fmap in Hjobs as (u & -> & Hu).
    exists u. split; [done|]. by apply list_elem_of_In.
  - intros (u & Hu & Hj). exists (page_jobs host plasmoManifest s u).
    split; [|by apply list_elem_of_In]. by apply list_elem_of_In, list_elem_of_fmap_2.
Qed.

Lemma init_jobs_out (host : Host) (plasmoManifest : BaseFactory.t) (s : State) :
  job_out <$> init_jobs host plasmoManifest s
  = concat (pageOutputs host plasmoManifest <$> uiPages).
Proof.
  unfold init_jobs, uiPages. cbn [concat fmap list_fmap].
  rewrite !fmap_app, !page_jobs_out. done.
Qed.

Section InitOutcome.
Context (host : Host) (plasmoManifest : BaseFactory.t).
Context (from : string → Prop) (image : string → string).

Abbreviation commonSource' :=
  (resolve host
     (BaseFactory.staticTemplatePath (BaseFactory.templatePath plasmoManifest)) "common").
Abbreviation commonTarget' :=
  (resolve host (BaseFactory.staticDirectory (BaseFactory.commonPath plasmoManifest))
     "common").

(** Where the outputs, the copied files and the files read are different
    files, a run of [init] that is fulfilled leaves, at the output of each
    generation, the text the generation started from in the state of the
    call, with its replacements applied, and, at the image of each file of
    the tree that is copied, what that file held. *)
Lemma init_outcome (s s' : State) (r : list bool) :
  copies host commonSource' commonTarget' from image →
  apart host plasmoManifest from image s →
  fulfils host (Scaffolder.init host plasmoManifest) s r s' →
  r = hasIndex plasmoManifest s <$> uiPages ∧
  (∀ j, j ∈ init_jobs host plasmoManifest s →
     ∃ text,
       job_text host plasmoManifest s j = Some text ∧
       nodes s' !! job_out j = Some (File (Scaffolder.finalScaffold text (job_map j)))) ∧
  (∀ p content, from p → nodes s !! p = Some (File content) →
     nodes s' !! image p = Some (File content)).
Proof.
  intros [Hinj Hcopy] (Hdup & Hsrc & Hfrom & Himg) Hf.
  set (jobs := init_jobs host plasmoManifest s) in *.
  set (input := others jobs (copied_to from image)).
  set (goal := results host plasmoManifest s jobs (copy_of s from image)).
  set (made := λ q, ∃ node, copy_of s from image q node).
  assert (wp host (within host plasmoManifest s input goal (λ _, True))
            (Scaffolder.init host plasmoManifest)
            (init_post host plasmoManifest s input goal (λ _, True) made s) s) as Hwp.
  { apply kit_init; [apply within_refl|done|done| |].
    - intros s1 n' Hs1 Hn'. destruct (Hcopy _ _ Hn') as [Himage Hrest].
      assert (∀ p content, from p → nodes s !! p = Some (File content) →
                n' !! image p = Some (File content)) as Hput.
      { intros p content Hp Hc. apply Himage; [done|].
        by apply (reached_input host plasmoManifest s input goal (λ _, True) s1 p content
                    Hs1 (Hfrom p Hp)). }
      split; [split|].
      + intros path content [_ Hnc]. apply Hrest. intros p Hp Heq. apply Hnc. by exists p.
      + intros path node [(j & Hj & Hout & c & Hres & ->)|(p & c & Hp & Hq & Hc & ->)] Hn.
        * exists (File c). split; [left; exists j; split; [done|]; split; [done|]; by exists c|].
          apply Hrest; [|done]. intros p Hp Heq. apply (Himg p Hp).
          rewrite Heq, <-Hout. by apply list_elem_of_fmap_2.
        * exists (File c). split; [right; by exists p, c|]. rewrite <-Hq. by apply Hput.
      + intros q (node & p & c & Hp & Hq & Hc & ->). exists (File c).
        split; [right; by exists p, c|]. rewrite <-Hq. by apply Hput.
    - intros u Hu. apply Forall_forall. intros j Hj.
      apply jobs_ok; [done..|]. apply elem_of_init_jobs. by exists u. }
  destruct (wp_fulfils _ _ _ _ _ _ _ Hwp Hf) as [(Hr & Hw & _ & Hmade & Hp) _].
  split; [done|]. split.
  - intros j Hj. pose proof Hj as (u & Hu & Hju)%elem_of_init_jobs.
    rewrite Forall_forall in Hp. destruct (Hp u Hu) as (_ & _ & _ & Hjobs).
    rewrite Forall_forall in Hjobs.
    eapply jobs_done; [done|done| |done|by apply Hjobs].
    intros j' node Hj' (p & c & Hp' & Hq & _). apply (Himg p Hp').
    rewrite Hq. by apply list_elem_of_fmap_2.
  - intros p content Hfp Hc.
    destruct (Hmade (image p)) as (node & Hgoal & Hn).
    { exists (File content), p, content. done. }
    destruct Hgoal as [(j & Hj & Hout & c & Hres & ->)|(p' & c & Hp' & Hq & Hc' & ->)].
    + exfalso. apply (Himg p Hfp). rewrite <-Hout. by apply list_elem_of_fmap_2.
    + assert (p' = p) as -> by by apply Hinj. congruence.
Qed.

End InitOutcome.

(** ** Running twice *)

Lemma find_ext {A} (f g : A → bool) (l : list A) :
  (∀ x, x ∈ l → f x = g x) → List.find f l = List.find g l.
Proof.
  induction l as [|a l IH]; intros H; [done|]. cbn.
  rewrite (H a) by apply list_elem_of_here.
  rewrite IH; [done|]. intros x Hx. apply H. by apply list_elem_of_further.
Qed.

Section SameInputs.
Context (host : Host) (plasmoManifest : BaseFactory.t).
Context (from : string → Prop) (image : string → string).

Lemma same_inputs_find (sa sb : State) (uiPageName : ExtensionUIPage) :
  same_inputs host plasmoManifest from sa sb →
  Scaffolder.findPageFiles plasmoManifest uiPageName sa
  = Scaffolder.findPageFiles plasmoManifest uiPageName sb.
Proof.
  intros (He & _). unfold Scaffolder.findPageFiles. f_equal; apply find_ext.
  - intros x Hx. apply (He uiPageName). apply elem_of_app. by left.
  - intros x Hx. apply (He uiPageName). apply elem_of_app. by right.
Qed.

Lemma same_inputs_jobs (sa sb : State) :
  same_inputs host plasmoManifest from sa sb →
  init_jobs host plasmoManifest sa = init_jobs host plasmoManifest sb.
Proof.
  intros H. unfold init_jobs, page_jobs, uiPages. cbn [fmap list_fmap].
  by rewrite !(same_inputs_find sa sb _ H).
Qed.

Lemma same_inputs_hasIndex (sa sb : State) (uiPageName : ExtensionUIPage) :
  same_inputs host plasmoManifest from sa sb →
  hasIndex plasmoManifest sa uiPageName = hasIndex plasmoManifest sb uiPageName.
Proof.
  intros H. pose proof (same_inputs_find sa sb uiPageName H) as Hf.
  unfold Scaffolder.findPageFiles, Scaffolder.projectPath in Hf. injection Hf as Hi _.
  unfold hasIndex. by rewrite Hi.
Qed.

Lemma same_inputs_text (sa sb : State) (j : Job) :
  same_inputs host plasmoManifest from sa sb →
  j ∈ init_jobs host plasmoManifest sa →
  job_text host plasmoManifest sa j = job_text host plasmoManifest sb j.
Proof.
  intros (_ & Ht & Hh & _) (u & _ & Hj)%elem_of_init_jobs.
  unfold page_jobs in Hj. apply elem_of_cons in Hj as [->|Hj].
  { cbn. apply Ht. apply list_elem_of_here. }
  apply list_elem_of_singleton in Hj as ->. unfold html_job.
  pose proof (find_first (fs.existsSync sa)
                (BaseFactory.HtmlList (BaseFactory.projectPath plasmoManifest) u)) as Hfirst.
  unfold Scaffolder.findPageFiles, Scaffolder.projectPath. cbn [snd].
  destruct (List.find (fs.existsSync sa)
              (BaseFactory.HtmlList (BaseFactory.projectPath plasmoManifest) u))
    as [[|c p]|]; cbn.
  - apply Ht. apply list_elem_of_further, list_elem_of_here.
  - destruct Hfirst as (earlier & later & Hl & _). apply (Hh u). rewrite Hl.
    apply elem_of_app. right. apply list_elem_of_here.
  - apply Ht. apply list_elem_of_further, list_elem_of_here.
Qed.

End SameInputs.

(** C9: two runs of [init] from states that hold the same inputs, with
    whatever caches that agree with the templates and whatever earlier
    outputs, and with whatever turns of their promises, leave the same
    bytes in every file they generate: the mount script and the HTML
    document of each page, and the copy of each file of the static
    assets.  The outputs, the copied files and the files read are taken
    to be different files, and the host's copy to put the files of the
    tree at their places and to leave every other file alone. *)
Theorem init_deterministic :
  ∀ (host : Host) (plasmoManifest : BaseFactory.t)
    (from : string → Prop) (image : string → string)
    (sa sb sa' sb' : State) (ra rb : list bool),
    copies host
      (resolve host
         (BaseFactory.staticTemplatePath (BaseFactory.templatePath plasmoManifest))
         "common")
      (resolve host (BaseFactory.staticDirectory (BaseFactory.commonPath plasmoManifest))
         "common")
      from image →
    apart host plasmoManifest from image sa →
    same_inputs host plasmoManifest from sa sb →
    fulfils host (Scaffolder.init host plasmoManifest) sa ra sa' →
    fulfils host (Scaffolder.init host plasmoManifest) sb rb sb' →
    ra = rb ∧
    (∀ path, path ∈ concat (pageOutputs host plasmoManifest <$> uiPages) →
       ∃ content,
         nodes sa' !! path = Some (File content) ∧
         nodes sb' !! path = Some (File content)) ∧
    (∀ p content, from p → nodes sa !! p = Some (File content) →
       nodes sa' !! image p = Some (File content) ∧
       nodes sb' !! image p = Some (File content)).
Proof.
  intros host plasmoManifest from image sa sb sa' sb' ra rb Hcopy Ha Hsame Hfa Hfb.
  pose proof (same_inputs_jobs host plasmoManifest from sa sb Hsame) as Hjobs.
  assert (apart host plasmoManifest from image sb) as Hb.
  { unfold apart in *. by rewrite <-Hjobs. }
  destruct (init_outcome host plasmoManifest from image sa sa' ra Hcopy Ha Hfa)
    as (-> & Hja & Hca).
  destruct (init_outcome host plasmoManifest from image sb sb' rb Hcopy Hb Hfb)
    as (-> & Hjb & Hcb).
  split; [|split].
  - unfold uiPages. cbn.
    by rewrite !(same_inputs_hasIndex host plasmoManifest from sa sb _ Hsame).
  - intros path Hpath. rewrite <-(init_jobs_out host plasmoManifest sa) in Hpath.
    apply list_elem_of_fmap in Hpath as (j & -> & Hj).
    destruct (Hja j Hj) as (ta & Hta & Hna).
    destruct (Hjb j) as (tb & Htb & Hnb); [by rewrite <-Hjobs|].
    rewrite (same_inputs_text host plasmoManifest from sa sb j Hsame Hj) in Hta.
    assert (ta = tb) as -> by congruence.
    by eexists.
  - intros p content Hp Hn. split; [by apply Hca|]. apply Hcb; [done|].
    destruct Hsame as (_ & _ & _ & Hfrom). by apply Hfrom.
Qed.

(** ** The example project *)

Section ExampleProject.
Import Example.

Lemma posix_copies :
  copies posix "/tpl/static/common" "/proj/.plasmo/static/common" common_from common_image.
Proof.
  split.
  - intros p p' Hp Hp'. by apply (moved_inj slash).
  - intros n n' H. by apply (copy_tree_impl_copies slash) in H.
Qed.

Lemma common_from_prefix (p : string) :
  common_from p → String.prefix "/tpl/static/common" p = true.
Proof.
  intros H. apply below_split in H. rewrite H. apply sprefix_app.
Qed.

Lemma common_image_prefix (p : string) :
  String.prefix "/proj/.plasmo/static/common" (common_image p) = true.
Proof. apply sprefix_app. Qed.

Lemma common_apart (q : string) :
  String.prefix "/proj/.plasmo/static/common" q = false →
  ¬ copied_to common_from common_image q.
Proof. intros Hq (p & _ & <-). by rewrite common_image_prefix in Hq. Qed.

Lemma common_from_apart (p : string) :
  common_from p → ¬ copied_to common_from common_image p.
Proof.
  intros Hp. apply common_apart. apply common_from_prefix, sprefix_split in Hp as [r ->].
  reflexivity.
Qed.

End ExampleProject.

Section ExampleRuns.
Import Example.

Lemma demo_outputs (s : State) :
  job_out <$> init_jobs posix demo s
  = ["/proj/.plasmo/static/popup.tsx"; "/proj/.plasmo/popup.html";
     "/proj/.plasmo/static/options.tsx"; "/proj/.plasmo/options.html";
     "/proj/.plasmo/static/newtab.tsx"; "/proj/.plasmo/newtab.html";
     "/proj/.plasmo/static/devtools.tsx"; "/proj/.plasmo/devtools.html"].
Proof. by rewrite init_jobs_out. Qed.

Lemma demo_outputs_apart (q : string) :
  q ∈ job_out <$> init_jobs posix demo before_init →
  String.prefix "/proj/.plasmo/" q = true ∧
  String.prefix "/proj/.plasmo/static/common" q = false.
Proof.
  rewrite demo_outputs. intros H.
  repeat (apply elem_of_cons in H as [->|H]; [by split|]).
  by apply elem_of_nil in H.
Qed.

Lemma demo_apart : apart posix demo common_from common_image before_init.
Proof.
  split; [|split; [|split]].
  - rewrite demo_outputs. all_different.
  - intros j Hj. vm_compute in Hj.
    repeat (apply elem_of_cons in Hj as [->|Hj];
            [split; [rewrite demo_outputs; not_listed|by apply common_apart]|]).
    by apply elem_of_nil in Hj.
  - intros p Hp. split; [|by apply common_from_apart].
    intros [Hq _]%demo_outputs_apart.
    apply common_from_prefix, sprefix_split in Hp as [r ->]. discriminate Hq.
  - intros p Hp [_ Hq]%demo_outputs_apart. by rewrite common_image_prefix in Hq.
Qed.

Lemma demo_same_inputs : same_inputs posix demo common_from before_init before_rerun.
Proof.
  split; [|split; [|split]].
  - intros u path Hp. destruct u; vm_compute in Hp;
      repeat (apply elem_of_cons in Hp as [->|Hp]; [reflexivity|]);
      by apply elem_of_nil in Hp.
  - intros f Hf. vm_compute in Hf.
    repeat (apply elem_of_cons in Hf as [->|Hf]; [reflexivity|]).
    by apply elem_of_nil in Hf.
  - intros u path Hp. destruct u; vm_compute in Hp;
      repeat (apply elem_of_cons in Hp as [->|Hp]; [reflexivity|]);
      by apply elem_of_nil in Hp.
  - intros p content Hp. apply common_from_prefix, sprefix_split in Hp as [r ->].
    unfold before_rerun. cbn [nodes]. by rewrite !lookup_insert_ne.
Qed.

End ExampleRuns.

Lemma init_deterministic_witness :
  ∃ sa' sb',
    fulfils Example.posix (Scaffolder.init Example.posix Example.demo)
      Example.before_init [false; false; true; false] sa'
    ∧ fulfils Example.posix (Scaffolder.init Example.posix Example.demo)
        Example.before_rerun [false; false; true; false] sb'
    ∧ nodes sa' !! "/proj/.plasmo/popup.html" = nodes sb' !! "/proj/.plasmo/popup.html"
    ∧ nodes sb' !! "/proj/.plasmo/static/common/env.d.ts"
      = Some (File "declare module '*.png'").
Proof.
  assert (∃ sa',
            run Example.posix (Example.leftmost 60)
              (Scaffolder.init Example.posix Example.demo) Example.before_init
            = (Ret [false; false; true; false], sa')) as [sa' Hruna].
  { eexists. vm_compute. reflexivity. }
  assert (∃ sb',
            run Example.posix (Example.rightmost 8)
              (Scaffolder.init Example.posix Example.demo) Example.before_rerun
            = (Ret [false; false; true; false], sb')) as [sb' Hrunb].
  { eexists. vm_compute. reflexivity. }
  exists sa', sb'.
  assert (fulfils Example.posix (Scaffolder.init Example.posix Example.demo)
            Example.before_init [false; false; true; false] sa') as Hfa.
  { by exists (Example.leftmost 60). }
  assert (fulfils Example.posix (Scaffolder.init Example.posix Example.demo)
            Example.before_rerun [false; false; true; false] sb') as Hfb.
  { by exists (Example.rightmost 8). }
  split; [exact Hfa|]. split; [exact Hfb|].
  destruct (init_deterministic Example.posix Example.demo Example.common_from Example.common_image
              _ _ _ _ _ _ posix_copies demo_apart demo_same_inputs Hfa Hfb)
    as (_ & Hout & Hcopy).
  split.
  - destruct (Hout "/proj/.plasmo/popup.html") as (content & -> & ->); [|done].
    cbn. repeat constructor.
  - by apply (Hcopy "/tpl/static/common/env.d.ts" "declare module '*.png'").
Defined.
